(** * Text2SQL: the SQL safety gate, the retrieval engine and the orchestrator

    A shallow embedding of
    - [natural_language_to_sql/utils/helpers.py] (sanitize / validate),
    - [natural_language_to_sql/core/rag_system.py] (descriptors, index,
      retrieval, append-and-rebuild),
    - [natural_language_to_sql/core/nsql_agent.py] ([process_query],
      [validate_and_execute]),
    - [natural_language_to_sql/models/gemini_llm.py] ([_extract_sql_query],
      [_create_prompt], [generate_sql]),
    - [natural_language_to_sql/cli/main.py]
      ([add_table_descriptions_interactive]),
    followed by the properties the specification states about them and by
    further properties read off the code.

    A Python [str] is modelled as a list of characters whose code points lie
    in 0..255 (the type [ascii]); the character classes below are the ones
    Python 3 uses for these code points. *)

From Stdlib Require Import List Ascii String Bool Arith NArith ZArith Lia.
From Stdlib Require Import DecimalString.
Import ListNotations.

(* ================================================================= *)
(** ** Python strings *)

Module PyStr.

Definition str := list ascii.

(** A literal. *)
Definition py (s : string) : str := list_ascii_of_string s.

Definition code (c : ascii) : N := N_of_ascii c.

Definition in_range (lo hi n : N) : bool := (N.leb lo n && N.leb n hi)%bool.

(** [str.isspace] on one character, as [str.strip()] uses it: TAB..CR,
    FS..US, SPACE, NEL and NBSP. *)
Definition is_space (c : ascii) : bool :=
  let n := code c in
  (in_range 9 13 n || in_range 28 32 n || N.eqb n 133 || N.eqb n 160)%bool.

(** The class [\w] of the [re] module on a [str] pattern: alphanumeric
    characters and the underscore. *)
Definition is_word (c : ascii) : bool :=
  let n := code c in
  (in_range 48 57 n || in_range 65 90 n || N.eqb n 95 || in_range 97 122 n
   || N.eqb n 170 || in_range 178 179 n || N.eqb n 181 || in_range 185 186 n
   || in_range 188 190 n || in_range 192 214 n || in_range 216 246 n
   || in_range 248 255 n)%bool.

(** [str.lower] on one character: A..Z and the upper-case letters of the
    Latin-1 block (all of 192..222 but the multiplication sign).  On a text
    of code points 0..255 [str.lower] is this map, character by character;
    beyond them it is not always one (U+0130 lowers to two code points), so
    what is proved of [lower] below is proved of texts of code points
    0..255. *)
Definition lower_char (c : ascii) : ascii :=
  let n := code c in
  if (in_range 65 90 n || (in_range 192 222 n && negb (N.eqb n 215)))%bool
  then ascii_of_N (n + 32) else c.

Definition lower (s : str) : str := map lower_char s.

(** [str.lstrip()], [str.rstrip()], [str.strip()]. *)
Fixpoint lstrip (s : str) : str :=
  match s with
  | [] => []
  | c :: t => if is_space c then lstrip t else s
  end.

Definition rstrip (s : str) : str := rev (lstrip (rev s)).

Definition strip (s : str) : str := rstrip (lstrip s).

(** [s.startswith(p)] and [s.endswith(p)]. *)
Fixpoint startswith (s p : str) : bool :=
  match p, s with
  | [], _ => true
  | _ :: _, [] => false
  | a :: p', b :: s' => (Ascii.eqb a b && startswith s' p')%bool
  end.

Definition endswith (s p : str) : bool := startswith (rev s) (rev p).

(** [needle in hay]. *)
Fixpoint str_in (needle hay : str) : bool :=
  (startswith hay needle
   || match hay with
      | [] => false
      | _ :: t => str_in needle t
      end)%bool.

(** [s[:-1]] is [removelast s] (the empty string stays empty). *)
Definition but_last (s : str) : str := removelast s.

(** [s.split(sep)] for a separator of one character. *)
Fixpoint split (sep : ascii) (s : str) : list str :=
  match s with
  | [] => [[]]
  | c :: t =>
      if Ascii.eqb c sep then [] :: split sep t
      else match split sep t with
           | [] => [[c]]
           | h :: r => (c :: h) :: r
           end
  end.

(** [l[0]] on the result of [split], which is never empty. *)
Definition first (l : list str) : str := hd [] l.

(** [sep.join(l)]. *)
Fixpoint join (sep : str) (l : list str) : str :=
  match l with
  | [] => []
  | [x] => x
  | x :: r => x ++ sep ++ join sep r
  end.

(** [str(n)] for a non-negative integer. *)
Definition str_of_nat (n : nat) : str :=
  py (NilEmpty.string_of_uint (Nat.to_uint n)).

(** *** The pattern [\b literal \b]

    [re.search(r'\b' + re.escape(kw) + r'\b', text)]: for the keywords of
    the deny list [re.escape] is the identity, so the pattern is a word
    boundary, the literal, a word boundary.  A boundary lies between two
    neighbouring positions exactly one of which holds a [\w] character; the
    outside of the text counts as not [\w]. *)

Definition is_word_opt (c : option ascii) : bool :=
  match c with
  | Some c => is_word c
  | None => false
  end.

Definition boundary (before after : option ascii) : bool :=
  xorb (is_word_opt before) (is_word_opt after).

Definition last_char (prev : option ascii) (s : str) : option ascii :=
  match rev s with
  | c :: _ => Some c
  | [] => prev
  end.

(** Does the pattern match at the start of [text], [prev] being the
    character just before it? *)
Definition match_here (prev : option ascii) (kw text : str) : bool :=
  (boundary prev (hd_error text)
   && startswith text kw
   && boundary (last_char prev kw) (hd_error (skipn (List.length kw) text)))%bool.

(** [re.search]: try every start position, left to right. *)
Fixpoint search_from (prev : option ascii) (kw text : str) : bool :=
  (match_here prev kw text
   || match text with
      | [] => false
      | c :: t => search_from (Some c) kw t
      end)%bool.

Definition re_search_word (kw text : str) : bool := search_from None kw text.

End PyStr.

Export PyStr.

(* ================================================================= *)
(** ** utils/helpers.py *)

Definition semicolon : str := [";"%char].

Definition dangerous_keywords : list str :=
  map py ["drop"; "delete"; "truncate"; "alter"; "create"; "insert"; "update";
          "grant"; "revoke"; "commit"; "rollback"; "savepoint"; "merge"]%string.

(** The loop of [validate_sql_query]: the first keyword found ends it. *)
Fixpoint no_keyword (keywords : list str) (query_lower : str) : bool :=
  match keywords with
  | [] => true
  | keyword :: rest =>
      if re_search_word keyword query_lower then false
      else no_keyword rest query_lower
  end.

Definition validate_sql_query (sql_query : str) : bool :=
  let query_lower := strip (lower sql_query) in
  no_keyword dangerous_keywords query_lower.

Definition sanitize_sql_query (sql_query : str) : str :=
  let sanitized := strip sql_query in
  let sanitized :=
    if endswith sanitized semicolon then but_last sanitized else sanitized in
  if str_in semicolon (but_last sanitized)
  then let statements := split ";" sanitized in strip (first statements)
  else sanitized.

Definition validate_and_sanitize_query (sql_query : str) : bool * str :=
  let sanitized_query := sanitize_sql_query sql_query in
  let is_valid := validate_sql_query sanitized_query in
  (is_valid, sanitized_query).

(* ================================================================= *)
(** ** Exceptions and fallible computations *)

(** The exceptions the modelled code can meet; all of them are instances of
    Python's [Exception].  [KeyError key] is what [d[key]] raises on a dict
    without [key]; [IndexError] what a list raises on an index out of range;
    [IndexError_tuple] the [IndexError] of a tuple, which the shape of an
    array without a second dimension raises at [shape[1]];
    [AssertionError] a failed [assert] without message; [OtherError msg] any
    other exception of a library, with its message. *)
Inductive exn : Type :=
| KeyError (key : str)
| IndexError
| IndexError_tuple
| AssertionError
| OtherError (msg : str).

(** [str(e)]. *)
Definition exn_str (e : exn) : str :=
  match e with
  | KeyError key => py "'" ++ key ++ py "'"
  | IndexError => py "list index out of range"
  | IndexError_tuple => py "tuple index out of range"
  | AssertionError => []
  | OtherError msg => msg
  end.


Inductive result (A : Type) : Type :=
| Ok (a : A)
| Raise (e : exn).

Arguments Ok {A} a.
Arguments Raise {A} e.

Definition bind {A B} (c : result A) (k : A -> result B) : result B :=
  match c with
  | Ok a => k a
  | Raise e => Raise e
  end.

Declare Scope result_scope.
Delimit Scope result_scope with result.
Notation "x <- c ;; k" := (bind c (fun x => k))
  (at level 61, c at next level, right associativity) : result_scope.

(** [d[key]] on a dict whose entry for [key] may be missing. *)
Definition item {A} (key : string) (field : option A) : result A :=
  match field with
  | Some a => Ok a
  | None => Raise (KeyError (py key))
  end.

(** [d.get(key, default)]. *)
Definition get {A} (field : option A) (default : A) : A :=
  match field with
  | Some a => a
  | None => default
  end.

Fixpoint map_result {A B} (f : A -> result B) (l : list A) : result (list B) :=
  match l with
  | [] => Ok []
  | a :: r => (b <- f a ;; bs <- map_result f r ;; Ok (b :: bs))%result
  end.

(* ================================================================= *)
(** ** core/rag_system.py: table descriptors *)

(** The dicts of the code, one record per kind of dict, a key that may be
    missing as an [option].  [ColumnInfo] is a column as the inspector returns
    it, as a custom descriptor supplies it, and as a descriptor stores it. *)
Record ColumnInfo : Type := {
  col_name : option str;
  col_type : option str;
  col_nullable : option bool;
  col_default : option str;
  col_primary_key : option bool;
  col_foreign_key : option bool
}.

Record ForeignKey : Type := {
  fk_constrained_columns : option (list str);
  fk_referred_table : option str;
  fk_referred_columns : option (list str)
}.

(** One table of the database: [get_table_names], [get_columns] and
    [get_foreign_keys] of the inspector. *)
Record InspectedTable : Type := {
  it_name : str;
  it_columns : list ColumnInfo;
  it_foreign_keys : list ForeignKey
}.

(** One entry of [custom_table_descriptions]. *)
Record CustomTable : Type := {
  ct_name : option str;
  ct_columns : option (list ColumnInfo);
  ct_primary_keys : option (list str);
  ct_foreign_keys : option (list ForeignKey)
}.

Record TableDescription : Type := {
  td_name : str;
  td_columns : list ColumnInfo;
  td_primary_keys : list str;
  td_foreign_keys : list ForeignKey;
  td_is_custom : bool;
  td_text_description : str
}.

Definition nonempty {A} (l : list A) : bool :=
  match l with
  | [] => false
  | _ :: _ => true
  end.

Section Descriptions.

(** [str(l)] of a list of strings, as an f-string renders
    [fk['constrained_columns']]. *)
Variable repr_list : list str -> str.

(** [[col['name'] for col in columns_info if col.get('primary_key', False)]] *)
Fixpoint primary_key_names (columns_info : list ColumnInfo) : result (list str) :=
  match columns_info with
  | [] => Ok []
  | col :: rest =>
      if get (col_primary_key col) false
      then (n <- item "name" (col_name col) ;;
            ns <- primary_key_names rest ;;
            Ok (n :: ns))%result
      else primary_key_names rest
  end.

(** [any(fk['constrained_columns'] and name in fk['constrained_columns']
        for fk in foreign_keys)] *)
Fixpoint any_constrains (name : str) (foreign_keys : list ForeignKey) : result bool :=
  match foreign_keys with
  | [] => Ok false
  | fk :: rest =>
      (cc <- item "constrained_columns" (fk_constrained_columns fk) ;;
       if (nonempty cc && existsb (fun c => if list_eq_dec ascii_dec name c then true else false) cc)%bool
       then Ok true
       else any_constrains name rest)%result
  end.

Definition col_info (foreign_keys : list ForeignKey) (col : ColumnInfo) : result ColumnInfo :=
  (n <- item "name" (col_name col) ;;
   t <- item "type" (col_type col) ;;
   n' <- item "name" (col_name col) ;;
   fk <- any_constrains n' foreign_keys ;;
   Ok {| col_name := Some n;
         col_type := Some t;
         col_nullable := Some (get (col_nullable col) true);
         col_default := col_default col;
         col_primary_key := Some (get (col_primary_key col) false);
         col_foreign_key := Some fk |})%result.

(** The loop over [enumerate(columns)]: [i < len(columns) - 1] holds exactly
    when a column follows. *)
Fixpoint columns_text (columns : list ColumnInfo) : result str :=
  match columns with
  | [] => Ok []
  | col :: rest =>
      (n <- item "name" (col_name col) ;;
       t <- item "type" (col_type col) ;;
       let text := n ++ py " of type " ++ t in
       let text := if get (col_primary_key col) false
                   then text ++ py " (primary key)" else text in
       let text := if Bool.eqb (get (col_nullable col) true) false
                   then text ++ py " (not null)" else text in
       let text := if nonempty rest then text ++ py ", " else text in
       more <- columns_text rest ;;
       Ok (text ++ more))%result
  end.

Fixpoint foreign_keys_text (foreign_keys : list ForeignKey) : result str :=
  match foreign_keys with
  | [] => Ok []
  | fk :: rest =>
      (cc <- item "constrained_columns" (fk_constrained_columns fk) ;;
       rt <- item "referred_table" (fk_referred_table fk) ;;
       rc <- item "referred_columns" (fk_referred_columns fk) ;;
       let text := py "'" ++ repr_list cc ++ py "' references '" ++ rt
                   ++ py "." ++ repr_list rc ++ py "'" in
       let text := if nonempty rest then text ++ py ", " else text in
       more <- foreign_keys_text rest ;;
       Ok (text ++ more))%result
  end.

Definition columns_part (columns : list ColumnInfo) : result str :=
  if nonempty columns
  then (t <- columns_text columns ;;
        Ok (str_of_nat (List.length columns) ++ py " columns: " ++ t))%result
  else Ok [].

Definition foreign_keys_part (foreign_keys : list ForeignKey) : result str :=
  if nonempty foreign_keys
  then (t <- foreign_keys_text foreign_keys ;;
        Ok (py ". It has foreign keys: " ++ t))%result
  else Ok [].

Definition primary_keys_part (primary_keys : list str) : str :=
  if nonempty primary_keys
  then py ". Primary keys: " ++ join (py ", ") primary_keys ++ py "."
  else [].

(** The body of the loop over the tables of the database. *)
Definition inspected_description (t : InspectedTable) : result TableDescription :=
  let table_name := it_name t in
  let columns_info := it_columns t in
  let foreign_keys := it_foreign_keys t in
  (primary_keys <- primary_key_names columns_info ;;
   columns <- map_result (col_info foreign_keys) columns_info ;;
   cols <- columns_part columns_info ;;
   fks <- foreign_keys_part foreign_keys ;;
   Ok {| td_name := table_name;
         td_columns := columns;
         td_primary_keys := primary_keys;
         td_foreign_keys := foreign_keys;
         td_is_custom := false;
         td_text_description :=
           py "Table '" ++ table_name ++ py "' has " ++ cols ++ fks
           ++ primary_keys_part primary_keys |})%result.

(** The body of the loop over the custom descriptors; it is the same text in
    [_get_table_descriptions] and in [add_custom_table_descriptions]. *)
Definition custom_description (custom_table : CustomTable) : result TableDescription :=
  (n <- item "name" (ct_name custom_table) ;;
   let columns := get (ct_columns custom_table) [] in
   let primary_keys := get (ct_primary_keys custom_table) [] in
   let foreign_keys := get (ct_foreign_keys custom_table) [] in
   n' <- item "name" (ct_name custom_table) ;;
   cols <- columns_part columns ;;
   fks <- foreign_keys_part foreign_keys ;;
   Ok {| td_name := n;
         td_columns := columns;
         td_primary_keys := primary_keys;
         td_foreign_keys := foreign_keys;
         td_is_custom := true;
         td_text_description :=
           py "Table '" ++ n' ++ py "' has " ++ cols
           ++ primary_keys_part primary_keys ++ fks |})%result.

(** [_get_table_descriptions]: [None] and the empty list both skip the custom
    part ([if custom_table_descriptions:]). *)
Definition _get_table_descriptions (inspected : list InspectedTable)
    (custom_table_descriptions : option (list CustomTable))
    : result (list TableDescription) :=
  (descriptions <- map_result inspected_description inspected ;;
   match custom_table_descriptions with
   | Some (c :: cs) =>
       customs <- map_result custom_description (c :: cs) ;;
       Ok (descriptions ++ customs)
   | _ => Ok descriptions
   end)%result.

End Descriptions.

(* ================================================================= *)
(** ** core/rag_system.py: index and retrieval *)

(** [l[idx]] on a Python list: a negative index counts from the end. *)
Definition py_index {A} (l : list A) (idx : Z) : result A :=
  let len := Z.of_nat (List.length l) in
  let pos := if (idx <? 0)%Z then (len + idx)%Z else idx in
  if (pos <? 0)%Z then Raise IndexError
  else match nth_error l (Z.to_nat pos) with
       | Some a => Ok a
       | None => Raise IndexError
       end.

Section Retrieval.

Variable repr_list : list str -> str.

(** The embedding model and the similarity search are libraries.  [Vec] is a
    row of the embedding matrix after [astype('float32')] and
    [faiss.normalize_L2]; [encode] is [self.model.encode] on one text followed
    by that normalisation; [inner] is the inner product [IndexFlatIP]
    computes, a [Score]; [score_leb] compares two scores; [pad_score] is the
    score FAISS reports for a missing result. *)
Variable Vec : Type.
Variable encode : str -> Vec.
Variable Score : Type.
Variable inner : Vec -> Vec -> Score.
Variable score_leb : Score -> Score -> bool.
Variable pad_score : Score.

(** *** [faiss.IndexFlatIP]

    The index keeps the vectors in the order they were added: slot [i] holds
    the [i]-th vector.  [search(q, k)] asserts [k > 0] and returns, for one
    query, [k] scores and [k] labels: the slots of the best scoring vectors,
    best first, and, where the index holds fewer than [k] vectors, the label
    [-1] with [pad_score] in the remaining places.  In which order the
    library returns slots of equal score is its own matter: [insert_desc]
    fixes one order, and nothing below depends on it. *)

Fixpoint insert_desc (x : Score * Z) (l : list (Score * Z)) : list (Score * Z) :=
  match l with
  | [] => [x]
  | y :: r => if score_leb (fst y) (fst x) then x :: l else y :: insert_desc x r
  end.

Definition sort_desc (l : list (Score * Z)) : list (Score * Z) :=
  fold_right insert_desc [] l.

Definition labelled (q : Vec) (index : list Vec) : list (Score * Z) :=
  combine (map (inner q) index) (map Z.of_nat (seq 0 (List.length index))).

(** The [k] places of a search result. *)
Definition nearest (index : list Vec) (q : Vec) (k : nat) : list (Score * Z) :=
  let best := firstn k (sort_desc (labelled q index)) in
  best ++ repeat (pad_score, (-1)%Z) (k - List.length best).

(** [index.search(q, k)], with its [assert k > 0]. *)
Definition index_search (index : list Vec) (q : Vec) (k : nat)
    : result (list (Score * Z)) :=
  if Nat.ltb 0 k then Ok (nearest index q k) else Raise AssertionError.

(** *** [RAGSystem] *)

Record RAGSystem : Type := {
  table_descriptions : list TableDescription;
  index : list Vec
}.

(** A retrieved table: the copy of a descriptor with its
    ['similarity_score']. *)
Record RelevantTable : Type := {
  table_info : TableDescription;
  similarity_score : Score
}.

(** [_build_index]: one embedding per descriptor, in list order, in a fresh
    index.  For an empty list of texts [self.model.encode] returns an array
    of shape [(0,)], and the build stops at its missing second dimension
    with an [IndexError], before [self.index] is assigned. *)
Definition _build_index (self : RAGSystem) : result RAGSystem :=
  let descriptions := map td_text_description (table_descriptions self) in
  let embeddings := map encode descriptions in
  if nonempty embeddings
  then Ok {| table_descriptions := table_descriptions self; index := embeddings |}
  else Raise IndexError_tuple.

(** [RAGSystem.__init__] *)
Definition RAGSystem_init (inspected : list InspectedTable)
    (custom_table_descriptions : option (list CustomTable)) : result RAGSystem :=
  (tds <- _get_table_descriptions repr_list inspected custom_table_descriptions ;;
   _build_index {| table_descriptions := tds; index := [] |})%result.

(** The loop of [retrieve_relevant_tables] over the places
    [0 .. min(len(indices[0]), k) - 1] of the search result. *)
Fixpoint collect (tds : list TableDescription) (found : list (Score * Z))
    : result (list RelevantTable) :=
  match found with
  | [] => Ok []
  | (score, idx) :: rest =>
      if (idx <? Z.of_nat (List.length tds))%Z
      then (table <- py_index tds idx ;;
            more <- collect tds rest ;;
            Ok ({| table_info := table; similarity_score := score |} :: more))%result
      else collect tds rest
  end.

Definition retrieve_relevant_tables (self : RAGSystem) (query : str) (k : nat)
    (min_score : Score) : result (list RelevantTable) :=
  let query_embedding := encode query in
  (found <- index_search (index self) query_embedding k ;;
   collect (table_descriptions self)
     (firstn (Nat.min (List.length found) k) found))%result.

(** The loop of [add_custom_table_descriptions]: each descriptor is appended
    as soon as it is built, so a failure keeps the ones appended before it. *)
Fixpoint append_customs (tds : list TableDescription) (customs : list CustomTable)
    : list TableDescription * result unit :=
  match customs with
  | [] => (tds, Ok tt)
  | custom_table :: rest =>
      match custom_description repr_list custom_table with
      | Ok table_description => append_customs (tds ++ [table_description]) rest
      | Raise e => (tds, Raise e)
      end
  end.

(** [add_custom_table_descriptions]: the object after the call and the
    outcome of the call (the closing [print] is left out). *)
Definition add_custom_table_descriptions (self : RAGSystem)
    (custom_table_descriptions : list CustomTable) : RAGSystem * result unit :=
  let (tds, outcome) := append_customs (table_descriptions self) custom_table_descriptions in
  let self := {| table_descriptions := tds; index := index self |} in
  match outcome with
  | Ok _ =>
      match _build_index self with
      | Ok rebuilt => (rebuilt, Ok tt)
      | Raise e => (self, Raise e)
      end
  | Raise e => (self, Raise e)
  end.

(** Index and descriptor list are coupled: slot [i] holds the embedding of
    [table_descriptions[i]]. *)
Definition coupled (self : RAGSystem) : Prop :=
  List.length (index self) = List.length (table_descriptions self)
  /\ forall i td, nth_error (table_descriptions self) i = Some td ->
       nth_error (index self) i = Some (encode (td_text_description td)).

End Retrieval.

Arguments table_descriptions {Vec} _.
Arguments index {Vec} _.
Arguments table_info {Score} _.
Arguments similarity_score {Score} _.

(* ================================================================= *)
(** ** core/nsql_agent.py *)

(** What a run of the agent does to the outside, in order: the calls into
    the retrieval engine, the generation client and the database, the entry
    into [validate_and_execute], and the log records. *)
Inductive level : Type := Info | Debug | Error.

Inductive event : Type :=
| Log (l : level) (msg : str)
| CallRetrieve (query : str)
| CallGenerate (query : str)
| CallValidateAndExecute (sql : str)
| CallDatabase (sql : str).

(** A computation that may raise and records its events. *)
Definition M (A : Type) : Type := list event * result A.

Definition ret {A} (a : A) : M A := ([], Ok a).

Definition mbind {A B} (m : M A) (k : A -> M B) : M B :=
  match m with
  | (t1, Ok a) => let (t2, r) := k a in (t1 ++ t2, r)
  | (t1, Raise e) => (t1, Raise e)
  end.

(** [try: m except Exception as e: handler e] *)
Definition try_except {A} (m : M A) (handler : exn -> M A) : M A :=
  match m with
  | (t1, Ok a) => (t1, Ok a)
  | (t1, Raise e) => let (t2, r) := handler e in (t1 ++ t2, r)
  end.

Definition emit (ev : event) : M unit := ([ev], Ok tt).

(** A call into a collaborator: the event, then its outcome. *)
Definition call {A} (ev : event) (outcome : result A) : M A := ([ev], outcome).

Declare Scope agent_scope.
Delimit Scope agent_scope with agent.
Notation "x <- c ;; k" := (mbind c (fun x => k))
  (at level 61, c at next level, right associativity) : agent_scope.
Notation "c ;;; k" := (mbind c (fun _ => k))
  (at level 61, right associativity) : agent_scope.

Definition nl : str := ["010"%char].

Section Agent.

(** [Table] is what the retrieval engine returns, [Row] a row of a result
    set. *)
Variables Table Row : Type.

(** The collaborators of an [NSQLAgent]:
    - [retrieve q] is [self.rag_system.retrieve_relevant_tables(q)];
    - [generate_sql q tables] is [self.gemini_llm.generate_sql(q, tables)];
    - [run_sql sql] is the [with self.engine.connect()] block up to
      [result.keys()]: the rows and the column names, or what it raised;
    - [tuple_str row] is [str(tuple(row))]. *)
Record Collaborators : Type := {
  retrieve : str -> result (list Table);
  generate_sql : str -> list Table -> result str;
  run_sql : str -> result (list Row * list str);
  tuple_str : Row -> str
}.

Variable self : Collaborators.

Definition rows_text (rows : list Row) : str :=
  List.concat (map (fun row => tuple_str self row ++ nl) rows).

Definition validate_and_execute (sql_query : str) : M str :=
  (emit (CallValidateAndExecute sql_query) ;;;
   try_except
     (let sql_query_lower := strip (lower sql_query) in
      if (startswith sql_query_lower (py "delete")
          || startswith sql_query_lower (py "drop"))%bool
      then ret (py "Only SELECT statements are allowed: " ++ sql_query)
      else
        fetched <- call (CallDatabase sql_query) (run_sql self sql_query) ;;
        let (rows, columns) := fetched : list Row * list str in
        if negb (nonempty rows) then ret (py "No results found.")
        else
          let result_str := py "Columns: " ++ join (py ", ") columns ++ nl in
          let result_str := result_str ++ repeat "-"%char 50 ++ nl in
          ret (result_str ++ rows_text rows))
     (fun e => ret (py "Error executing SQL query: " ++ exn_str e)))%agent.

Definition process_query (natural_query : str) : M str :=
  try_except
    (emit (Log Info (py "Processing natural language query: " ++ natural_query)) ;;;
     emit (Log Debug (py "Retrieving relevant tables using RAG system...")) ;;;
     relevant_tables <- call (CallRetrieve natural_query) (retrieve self natural_query) ;;
     emit (Log Debug (py "Found " ++ str_of_nat (List.length relevant_tables)
                      ++ py " relevant tables")) ;;;
     if negb (nonempty relevant_tables)
     then ret (py "No relevant tables found for the given query.")
     else
       emit (Log Debug (py "Generating SQL query using Gemini LLM...")) ;;;
       sql_query <- call (CallGenerate natural_query)
                         (generate_sql self natural_query relevant_tables) ;;
       emit (Log Debug (py "Generated SQL query: " ++ sql_query)) ;;;
       let (is_valid, sanitized_query) := validate_and_sanitize_query sql_query in
       if negb is_valid
       then ret (py "Generated SQL query contains potentially dangerous operations: "
                 ++ sql_query)
       else
         result <- validate_and_execute sanitized_query ;;
         let result_str := py "Generated SQL: " ++ sanitized_query ++ nl ++ nl
                           ++ py "Result:" ++ nl ++ result in
         ret result_str)%agent
    (fun e =>
       (emit (Log Error (py "Error processing query: " ++ exn_str e)) ;;;
        ret (py "Error processing query: " ++ exn_str e))%agent).

(** Was [validate_and_execute] entered, was the database reached? *)
Definition is_execution (ev : event) : bool :=
  match ev with
  | CallValidateAndExecute _ | CallDatabase _ => true
  | _ => false
  end.

End Agent.

Arguments retrieve {Table Row} _ _.
Arguments generate_sql {Table Row} _ _ _.
Arguments run_sql {Table Row} _ _.
Arguments tuple_str {Table Row} _ _.
Arguments validate_and_execute {Table Row} self sql_query.
Arguments process_query {Table Row} self natural_query.

(* ================================================================= *)
(** ** models/gemini_llm.py *)

(** More of Python's [str]: [find], slices, [isalpha]. *)
Module PyFind.

(** [str.isalpha] on one character of 0..255. *)
Definition is_alpha (c : ascii) : bool :=
  let n := code c in
  (in_range 65 90 n || in_range 97 122 n || N.eqb n 170 || N.eqb n 181
   || N.eqb n 186 || in_range 192 214 n || in_range 216 246 n
   || in_range 248 255 n)%bool.

(** [s.isalpha()]: not empty, letters only. *)
Definition isalpha (s : str) : bool := (nonempty s && forallb is_alpha s)%bool.

Definition len (s : str) : Z := Z.of_nat (List.length s).

(** The lowest index at or after [pos], the index of the head of [s], where
    [sub] starts; [-1] when there is none. *)
Fixpoint find_at (sub s : str) (pos : nat) : Z :=
  if startswith s sub then Z.of_nat pos
  else match s with
       | [] => (-1)%Z
       | _ :: t => find_at sub t (S pos)
       end.

(** [s.find(sub, start)]; a negative [start] counts from the end. *)
Definition find (s sub : str) (start : Z) : Z :=
  let start := if (start <? 0)%Z then Z.max 0 (len s + start) else start in
  if (len s <? start)%Z then (-1)%Z
  else find_at sub (skipn (Z.to_nat start) s) (Z.to_nat start).

(** A bound of a slice, brought into [0 .. len(s)]. *)
Definition clamp (s : str) (i : Z) : nat :=
  Z.to_nat (if (i <? 0)%Z then Z.max 0 (len s + i) else Z.min i (len s)).

(** [s[a:b]] *)
Definition slice (s : str) (a b : Z) : str :=
  firstn (clamp s b - clamp s a) (skipn (clamp s a) s).

End PyFind.

Export PyFind.

Definition dquote : ascii := "034"%char.
Definition fence : str := py "```".
Definition sql_fence : str := py "```sql".

Definition _extract_sql_query (response_text : str) : str :=
  let cleaned_response := strip response_text in
  if str_in sql_fence cleaned_response then
    let start := (find cleaned_response sql_fence 0 + len sql_fence)%Z in
    let end_ := find cleaned_response fence start in
    let end_ := if (end_ =? -1)%Z then len cleaned_response else end_ in
    strip (slice cleaned_response start end_)
  else if str_in fence cleaned_response then
    let start := find cleaned_response fence 0 in
    let start :=
      if ((start + 3 <? len cleaned_response)%Z
          && isalpha (slice cleaned_response (start + 3) (start + 4)))%bool
      then
        let next_newline := find cleaned_response nl start in
        if negb (next_newline =? -1)%Z then next_newline else (start + 3)%Z
      else (start + 3)%Z in
    let end_ := find cleaned_response fence start in
    let end_ := if (end_ =? -1)%Z then len cleaned_response else end_ in
    strip (slice cleaned_response start end_)
  else cleaned_response.

(** The text of the two triple-quoted blocks of [_create_prompt]: every line
    of theirs starts with the eight blanks of the source's indentation. *)
Definition indent : str := repeat " "%char 8.
Definition line (text : str) : str := indent ++ text ++ nl.

Definition prompt_head (natural_query : str) : str :=
  nl ++
  line (py "You are an expert SQL developer. Your task is to convert natural language queries into correct, executable SQL queries.") ++
  line [] ++
  line (py "## Instructions:") ++
  line (py "1. Analyze the provided natural language query carefully.") ++
  line (py "2. Use only the table structures provided below.") ++
  line (py "3. Generate a valid SQL query that answers the natural language query.") ++
  line (py "4. Do not add any explanations or comments, only output the SQL query.") ++
  line (py "5. Use proper SQL formatting and best practices.") ++
  line (py "6. If multiple tables are relevant, use appropriate JOINs based on primary/foreign key relationships.") ++
  line (py "7. Follow standard SQL syntax that works with most databases.") ++
  line [] ++
  line (py "## Natural Language Query:") ++
  line ([dquote] ++ natural_query ++ [dquote]) ++
  line [] ++
  line (py "## Relevant Database Tables and Structures:") ++
  line [] ++
  indent.

Definition prompt_tail : str :=
  nl ++
  line [] ++
  line (py "## Output:") ++
  line (py "Please provide only the SQL query that answers the natural language query. No explanations.") ++
  indent.

Section Prompt.

Variable repr_list : list str -> str.
Variable Score : Type.

(** One column of a table, in the loop of [_create_prompt]. *)
Definition prompt_column (col : ColumnInfo) : result str :=
  let nullable_str :=
    if Bool.eqb (get (col_nullable col) true) false then py "NOT NULL" else py "NULL" in
  let primary_key_str :=
    if get (col_primary_key col) false then py " (PRIMARY KEY)" else [] in
  let foreign_key_str :=
    if get (col_foreign_key col) false then py " (FOREIGN KEY)" else [] in
  (n <- item "name" (col_name col) ;;
   t <- item "type" (col_type col) ;;
   let text := py "- `" ++ n ++ py "`: " ++ t ++ py " [" ++ nullable_str
               ++ primary_key_str ++ foreign_key_str ++ py "]" in
   let text := match col_default col with
               | Some d => text ++ py ", default: " ++ d
               | None => text
               end in
   Ok (text ++ nl))%result.

Definition prompt_foreign_key (fk : ForeignKey) : result str :=
  (cc <- item "constrained_columns" (fk_constrained_columns fk) ;;
   rt <- item "referred_table" (fk_referred_table fk) ;;
   rc <- item "referred_columns" (fk_referred_columns fk) ;;
   Ok (py "- `" ++ repr_list cc ++ py "` references `" ++ rt ++ py "."
       ++ repr_list rc ++ py "`" ++ nl))%result.

(** The body of the loop over [relevant_tables]. *)
Definition prompt_table (table : RelevantTable Score) : result str :=
  let t := table_info table in
  let text := nl ++ py "### Table: `" ++ td_name t ++ py "`" ++ nl in
  let text := text ++ py "**Columns:**" ++ nl in
  (cols <- map_result prompt_column (td_columns t) ;;
   let text := text ++ List.concat cols in
   let primary_keys := td_primary_keys t in
   let text :=
     if nonempty primary_keys
     then text ++ nl ++ py "**Primary Keys:** "
          ++ join (py ", ") (map (fun pk => py "`" ++ pk ++ py "`") primary_keys) ++ nl
     else text in
   let foreign_keys := td_foreign_keys t in
   if nonempty foreign_keys
   then (fks <- map_result prompt_foreign_key foreign_keys ;;
         Ok (text ++ nl ++ py "**Foreign Keys:**" ++ nl ++ List.concat fks))
   else Ok text)%result.

Definition _create_prompt (natural_query : str)
    (relevant_tables : list (RelevantTable Score)) : result str :=
  (tables <- map_result prompt_table relevant_tables ;;
   Ok (prompt_head natural_query ++ List.concat tables ++ prompt_tail))%result.

(** [generate_content prompt] is [self.model.generate_content(prompt)]
    followed by [response.text]: the text of the answer, or what either
    raised. *)
Variable generate_content : str -> result str.

(** [GeminiLLM.generate_sql]: whatever is raised inside is logged and raised
    again. *)
Definition llm_generate_sql (natural_query : str)
    (relevant_tables : list (RelevantTable Score)) : M str :=
  try_except
    (prompt <- ([], _create_prompt natural_query relevant_tables) ;;
     response_text <- ([], generate_content prompt) ;;
     emit (Log Debug (py "LLM Response: " ++ response_text)) ;;;
     let sql_query := _extract_sql_query response_text in
     ret sql_query)%agent
    (fun e => ([Log Error (py "Error generating SQL: " ++ exn_str e)], Raise e)).

End Prompt.

(* ================================================================= *)
(** ** cli/main.py: [add_table_descriptions_interactive] *)

(** An unpacking [a, b, c = l] raises [ValueError] unless [l] has as many
    items as there are targets. *)
Inductive unpacked (A : Type) : Type :=
| Unpacked (a : A)
| ValueError.

Arguments Unpacked {A} a.
Arguments ValueError {A}.

Definition unpack3 (l : list str) : unpacked (str * str * str) :=
  match l with
  | [a; b; c] => Unpacked (a, b, c)
  | _ => ValueError
  end.

Definition unpack2 (l : list str) : unpacked (str * str) :=
  match l with
  | [a; b] => Unpacked (a, b)
  | _ => ValueError
  end.

Definition str_eqb (a b : str) : bool :=
  if list_eq_dec ascii_dec a b then true else false.

(** The body of the loop over [columns_input.split(';')]: the columns so far,
    with the column of [col_str] appended when it has one. *)
Definition parse_column (columns : list ColumnInfo) (col_str : str)
    : unpacked (list ColumnInfo) :=
  if nonempty (strip col_str) then
    let parts := split "," col_str in
    if (3 <=? List.length parts)%nat then
      match unpack3 (split ":" (nth 0 parts [])) with
      | ValueError => ValueError
      | Unpacked (col_name, col_type, nullable_str) =>
          let nullable := str_eqb (lower nullable_str) (py "true") in
          let primary_key :=
            if ((3 <=? List.length parts)%nat && str_in [":"%char] (nth 2 parts []))%bool
            then match unpack2 (split ":" (nth 2 parts [])) with
                 | ValueError => ValueError
                 | Unpacked (pk_name, pk_value) =>
                     Unpacked (str_eqb (lower pk_value) (py "true"))
                 end
            else Unpacked false in
          match primary_key with
          | ValueError => ValueError
          | Unpacked primary_key =>
              Unpacked (columns ++
                [{| col_name := Some (strip col_name);
                    col_type := Some (strip col_type);
                    col_nullable := Some nullable;
                    col_default := None;
                    col_primary_key := Some primary_key;
                    col_foreign_key := None |}])
          end
      end
    else Unpacked columns
  else Unpacked columns.

Fixpoint parse_columns_loop (columns : list ColumnInfo) (segments : list str)
    : unpacked (list ColumnInfo) :=
  match segments with
  | [] => Unpacked columns
  | col_str :: rest =>
      match parse_column columns col_str with
      | ValueError => ValueError
      | Unpacked columns => parse_columns_loop columns rest
      end
  end.

(** The columns read from the line the user typed. *)
Definition parse_columns (columns_input : str) : unpacked (list ColumnInfo) :=
  parse_columns_loop [] (split ";" columns_input).

(** What a call of [add_table_descriptions_interactive] comes to. *)
Inductive interaction (S : Type) : Type :=
| Done                                   (* returned at a ['done'] *)
| Unpacking                              (* raised [ValueError] *)
| Added (after : S) (outcome : result unit).

Arguments Done {S}.
Arguments Unpacking {S}.
Arguments Added {S} after outcome.

Section Interactive.

Variable repr_list : list str -> str.
Variable Vec : Type.
Variable encode : str -> Vec.

(** [add_table_descriptions_interactive(agent)] on the two lines the user
    types, the agent being its [rag_system]; the [print] calls are left
    out. *)
Definition add_table_descriptions_interactive (agent : RAGSystem Vec)
    (first_line second_line : str) : interaction (RAGSystem Vec) :=
  let table_name := strip first_line in
  if str_eqb (lower table_name) (py "done") then Done
  else
    let columns_input := strip second_line in
    if str_eqb (lower columns_input) (py "done") then Done
    else
      match parse_columns columns_input with
      | ValueError => Unpacking
      | Unpacked columns =>
          let table_desc :=
            {| ct_name := Some table_name; ct_columns := Some columns;
               ct_primary_keys := None; ct_foreign_keys := None |} in
          let (after, outcome) :=
            add_custom_table_descriptions repr_list Vec encode agent [table_desc] in
          Added after outcome
      end.

End Interactive.

(* ================================================================= *)
(** ** A small instance *)

Module Example.

(** [str] of a list of strings without apostrophe or backslash, which
    [repr] puts between single quotes as they are: [['a', 'b']]. *)
Definition repr_list (l : list str) : str :=
  py "[" ++ join (py ", ") (map (fun s => py "'" ++ s ++ py "'") l) ++ py "]".

(** One-dimensional integer embeddings stand in for the model: the length of
    the text.  The pad score is the integer value of [-FLT_MAX]. *)
Definition encode (s : str) : Z := Z.of_nat (List.length s).
Definition inner (a b : Z) : Z := (a * b)%Z.
Definition pad_score : Z := (-340282346638528859811704183484516925440)%Z.

Definition column (n t : string) (nullable primary_key : bool) : ColumnInfo :=
  {| col_name := Some (py n); col_type := Some (py t);
     col_nullable := Some nullable; col_default := None;
     col_primary_key := Some primary_key; col_foreign_key := None |}.

(** The table of [simple_test.py]. *)
Definition employees : InspectedTable :=
  {| it_name := py "employees";
     it_columns := [column "id" "INTEGER" true true;
                    column "name" "TEXT" false false;
                    column "department" "TEXT" true false;
                    column "salary" "REAL" true false];
     it_foreign_keys := [] |}.

(** Two custom descriptors, the second without its ['name']. *)
Definition departments : CustomTable :=
  {| ct_name := Some (py "departments");
     ct_columns := Some [column "id" "INTEGER" false true;
                         column "name" "TEXT" false false];
     ct_primary_keys := Some [py "id"];
     ct_foreign_keys := None |}.

Definition nameless : CustomTable :=
  {| ct_name := None;
     ct_columns := Some [column "id" "INTEGER" false true];
     ct_primary_keys := None;
     ct_foreign_keys := None |}.

(** [RAGSystem(engine)] on the database of [simple_test.py]. *)
Definition rag : result (RAGSystem Z) :=
  RAGSystem_init repr_list Z encode [employees] None.

Definition rag_system : RAGSystem Z :=
  match rag with
  | Ok self => self
  | Raise _ => {| table_descriptions := []; index := [] |}
  end.

(** The descriptor this builds for [employees]. *)
Definition employees_description : TableDescription :=
  match inspected_description repr_list employees with
  | Ok d => d
  | Raise _ =>
      {| td_name := []; td_columns := []; td_primary_keys := [];
         td_foreign_keys := []; td_is_custom := false; td_text_description := [] |}
  end.

(** [retrieve_relevant_tables(query)] with its defaults: [k = 3], and [0]
    for the threshold [0.25], which integer scores cannot express. *)
Definition retrieve_default (self : RAGSystem Z) (query : str)
    : result (list (RelevantTable Z)) :=
  retrieve_relevant_tables Z encode Z inner Z.leb pad_score self query 3 0%Z.

(** An agent over that system whose generation client answers every question
    with [sql]; the database returns one row. *)
Definition agent (self : RAGSystem Z) (sql : str)
    : Collaborators (RelevantTable Z) str :=
  {| retrieve := retrieve_default self;
     generate_sql := fun _ _ => Ok sql;
     run_sql := fun _ => Ok ([py "(1,)"], [py "1"]);
     tuple_str := fun row => row |}.

(** An agent whose database connection fails. *)
Definition agent_offline (self : RAGSystem Z) (sql : str)
    : Collaborators (RelevantTable Z) str :=
  {| retrieve := retrieve_default self;
     generate_sql := fun _ _ => Ok sql;
     run_sql := fun _ => Raise (OtherError (py "unable to open database file"));
     tuple_str := fun row => row |}.

End Example.

(* ================================================================= *)
(** ** Vocabulary of the specification *)

(** The text before the first occurrence of [c] (the whole text when [c]
    does not occur). *)
Fixpoint before_first (c : ascii) (s : str) : str :=
  match s with
  | [] => []
  | x :: t => if Ascii.eqb x c then [] else x :: before_first c t
  end.

(** [q] contains a statement terminator that is not its very last
    character. *)
Definition terminator_not_at_end (q : str) : bool :=
  str_in semicolon (but_last q).

(** No white space at either end. *)
Definition trimmed (s : str) : Prop :=
  match s with c :: _ => is_space c = false | [] => True end
  /\ match rev s with c :: _ => is_space c = false | [] => True end.

(** The trimmed text has the shape [t c ;] where [t] holds no terminator and
    [c] is white space or a terminator. *)
Definition dangling_terminator (q : str) : bool :=
  let s := strip q in
  (endswith s semicolon
   && negb (str_in semicolon (but_last (but_last s)))
   && match rev (but_last s) with
      | c :: _ => is_space c || Ascii.eqb c ";"
      | [] => false
      end)%bool.

(** [s] is empty or ends with a character that is not [\w];
    [s] is empty or starts with a character that is not [\w]. *)
Definition ends_outside_word (s : str) : bool := negb (is_word_opt (last_char None s)).
Definition starts_outside_word (s : str) : bool := negb (is_word_opt (hd_error s)).

(** Only white space. *)
Definition all_space (s : str) : Prop := Forall (fun c => is_space c = true) s.

(** The first step of [sanitize_sql_query]: trimmed, and without one trailing
    terminator. *)
Definition without_trailing_terminator (q : str) : str :=
  if endswith (strip q) semicolon then but_last (strip q) else strip q.


(** A place of a search result that holds a slot of an index of [n]
    vectors. *)
Definition slot_of {Score : Type} (n : nat) (p : Score * Z) : Prop :=
  (0 <= snd p < Z.of_nat n)%Z.

(* ================================================================= *)
(** ** Vocabulary of the further properties *)

(** A place of the search result that the loop can serve: a slot of the
    descriptor list, or the padding label. *)
Definition servable {Score : Type} (n : nat) (p : Score * Z) : Prop :=
  (-1 <= snd p < Z.of_nat n)%Z.

(** A column with its ['name'] and ['type'], a foreign key with its three
    keys, a descriptor all of whose columns and foreign keys are so. *)
Definition complete_column (col : ColumnInfo) : bool :=
  match col_name col, col_type col with
  | Some _, Some _ => true
  | _, _ => false
  end.

Definition complete_foreign_key (fk : ForeignKey) : bool :=
  match fk_constrained_columns fk, fk_referred_table fk, fk_referred_columns fk with
  | Some _, Some _, Some _ => true
  | _, _, _ => false
  end.

Definition complete (td : TableDescription) : bool :=
  (forallb complete_column (td_columns td)
   && forallb complete_foreign_key (td_foreign_keys td))%bool.

(** A custom descriptor that can be built. *)
Definition well_formed_custom (c : CustomTable) : bool :=
  (match ct_name c with Some _ => true | None => false end
   && forallb complete_column (get (ct_columns c) [])
   && forallb complete_foreign_key (get (ct_foreign_keys c) []))%bool.

(** The character of the code fences. *)
Definition backquote : ascii := "`"%char.

(** What the default retrieval returns on the small instance. *)
Definition retrieved_employees : list (RelevantTable Z) :=
  match Example.retrieve_default Example.rag_system (py "Show all employees") with
  | Ok r => r
  | Raise _ => []
  end.

(** The secondary check of [validate_and_execute]. *)
Definition starts_destructive (sql : str) : bool :=
  (startswith (strip (lower sql)) (py "delete")
   || startswith (strip (lower sql)) (py "drop"))%bool.

(** The calls into the collaborators, without the log records. *)
Definition calls_of (trace : list event) : list event :=
  filter (fun ev => match ev with Log _ _ => false | _ => true end) trace.


(** The line [n:t:b,x,y]. *)
Definition piece (n t b x y : str) : str :=
  n ++ ":"%char :: t ++ ":"%char :: b ++ ","%char :: x ++ ","%char :: y.

(** An agent whose retrieval finds nothing. *)
Definition agent_without_tables : Collaborators (RelevantTable Z) str :=
  {| retrieve := fun _ => Ok [];
     generate_sql := fun _ _ => Ok (py "SELECT 1");
     run_sql := fun _ => Ok ([], []);
     tuple_str := fun row => row |}.

(* ================================================================= *)
(** ** Properties of the string operations *)

Lemma is_space_semicolon : is_space ";" = false.
Proof. reflexivity. Qed.

Lemma startswith_nil (s : str) : startswith s [] = true.
Proof. now destruct s. Qed.

Lemma str_in_char (c : ascii) (s : str) : str_in [c] s = true <-> In c s.
Proof.
  induction s as [|x t IH]; simpl.
  - split; [discriminate | tauto].
  - rewrite startswith_nil, Bool.andb_true_r, Bool.orb_true_iff, IH, Ascii.eqb_eq.
    split; intros [H|H]; auto.
Qed.

Lemma str_in_char_false (c : ascii) (s : str) : str_in [c] s = false <-> ~ In c s.
Proof.
  rewrite <- str_in_char. destruct (str_in [c] s); split; congruence.
Qed.

Lemma snoc_cases {A} (l : list A) : l = [] \/ exists l' x, l = l' ++ [x].
Proof.
  destruct l as [|a l]; [now left | right].
  destruct (exists_last (l := a :: l)) as (l' & x & E); [discriminate|].
  now exists l', x.
Qed.

Lemma endswith_char_snoc (s : str) (x c : ascii) :
  endswith (s ++ [x]) [c] = Ascii.eqb c x.
Proof.
  unfold endswith. rewrite rev_app_distr. simpl.
  now rewrite startswith_nil, Bool.andb_true_r.
Qed.

Lemma endswith_char_nil (c : ascii) : endswith [] [c] = false.
Proof. reflexivity. Qed.

Lemma but_last_snoc (s : str) (x : ascii) : but_last (s ++ [x]) = s.
Proof. apply removelast_last. Qed.

(** *** [strip] *)

Lemma lstrip_all_space (a s : str) : all_space a -> lstrip (a ++ s) = lstrip s.
Proof.
  induction 1 as [|c a Hc _ IH]; simpl; [reflexivity|]. now rewrite Hc.
Qed.

Lemma lstrip_split (s : str) :
  exists a, s = a ++ lstrip s /\ all_space a
            /\ match lstrip s with c :: _ => is_space c = false | [] => True end.
Proof.
  induction s as [|c t (a & E & Ha & Hh)]; simpl.
  - exists []. repeat split. constructor.
  - destruct (is_space c) eqn:Hc.
    + exists (c :: a). simpl. rewrite <- E. repeat split; [now constructor | exact Hh].
    + exists []. repeat split; [constructor | exact Hc].
Qed.

Lemma lstrip_fixed (s : str) :
  match s with c :: _ => is_space c = false | [] => True end -> lstrip s = s.
Proof. destruct s as [|c t]; simpl; [reflexivity|]. now intros ->. Qed.

Lemma all_space_rev (a : str) : all_space a -> all_space (rev a).
Proof. unfold all_space. apply Forall_rev. Qed.

Lemma rstrip_split (s : str) :
  exists b, s = rstrip s ++ b /\ all_space b
            /\ match rev (rstrip s) with c :: _ => is_space c = false | [] => True end.
Proof.
  unfold rstrip. destruct (lstrip_split (rev s)) as (a & E & Ha & Hh).
  exists (rev a). rewrite rev_involutive. repeat split.
  - rewrite <- rev_app_distr, <- E. now rewrite rev_involutive.
  - now apply all_space_rev.
  - exact Hh.
Qed.

Lemma strip_split (s : str) :
  exists a b, s = a ++ strip s ++ b /\ all_space a /\ all_space b.
Proof.
  unfold strip. destruct (lstrip_split s) as (a & E & Ha & _).
  destruct (rstrip_split (lstrip s)) as (b & E' & Hb & _).
  exists a, b. repeat split; try assumption. now rewrite <- E'.
Qed.

Lemma strip_trimmed (s : str) : trimmed (strip s).
Proof.
  unfold strip, trimmed. destruct (lstrip_split s) as (_ & _ & _ & Hh).
  destruct (rstrip_split (lstrip s)) as (b & E & _ & Hl). split; [|exact Hl].
  destruct (rstrip (lstrip s)) as [|c t]; [exact I|].
  rewrite E in Hh. exact Hh.
Qed.

Lemma strip_unique (a m b : str) :
  all_space a -> all_space b -> trimmed m -> strip (a ++ m ++ b) = m.
Proof.
  intros Ha Hb [Hh Hl]. unfold strip. rewrite lstrip_all_space by assumption.
  unfold rstrip. destruct m as [|c m].
  - simpl. assert (E : lstrip b = []).
    { rewrite <- (app_nil_r b). now rewrite lstrip_all_space. }
    now rewrite E.
  - rewrite (lstrip_fixed ((c :: m) ++ b)) by exact Hh.
    rewrite rev_app_distr, lstrip_all_space by now apply all_space_rev.
    rewrite lstrip_fixed by exact Hl. apply rev_involutive.
Qed.

Lemma strip_fixed (m : str) : trimmed m -> strip m = m.
Proof.
  intros H. pose proof (strip_unique [] m [] (Forall_nil _) (Forall_nil _) H) as E.
  simpl in E. now rewrite app_nil_r in E.
Qed.

Lemma strip_idempotent (s : str) : strip (strip s) = strip s.
Proof. apply strip_fixed, strip_trimmed. Qed.

Lemma strip_all_space (a s : str) : all_space a -> strip (a ++ s) = strip s.
Proof. intros H. unfold strip. now rewrite lstrip_all_space. Qed.

Lemma all_space_not_in (c : ascii) (a : str) :
  is_space c = false -> all_space a -> ~ In c a.
Proof.
  intros Hc Ha Hin. unfold all_space in Ha. rewrite Forall_forall in Ha.
  apply Ha in Hin. congruence.
Qed.

Lemma in_strip (c : ascii) (s : str) : In c (strip s) -> In c s.
Proof.
  intros H. destruct (strip_split s) as (a & b & E & _ & _). rewrite E.
  rewrite !in_app_iff. tauto.
Qed.

Lemma in_strip_iff (c : ascii) (s : str) :
  is_space c = false -> (In c (strip s) <-> In c s).
Proof.
  intros Hc. split; [apply in_strip|].
  destruct (strip_split s) as (a & b & E & Ha & Hb). intros H.
  rewrite E in H. rewrite !in_app_iff in H.
  destruct H as [H|[H|H]]; [|exact H|]; exfalso.
  - exact (all_space_not_in c a Hc Ha H).
  - exact (all_space_not_in c b Hc Hb H).
Qed.

Lemma trimmed_nil : trimmed [].
Proof. split; exact I. Qed.

(** A prefix of a trimmed text whose last character is not white space is
    trimmed. *)
Lemma trimmed_prefix (s : str) (x : ascii) :
  trimmed (s ++ [x]) ->
  match rev s with c :: _ => is_space c = false | [] => True end ->
  trimmed s.
Proof.
  intros [Hh _] Hl. split; [|exact Hl].
  destruct s as [|c t]; [exact I | exact Hh].
Qed.

(** *** [split] and [before_first] *)

Lemma first_split (c : ascii) (s : str) : first (split c s) = before_first c s.
Proof.
  induction s as [|x t IH]; simpl; [reflexivity|].
  destruct (Ascii.eqb x c); [reflexivity|].
  unfold first in IH. destruct (split c t) as [|h r]; simpl in *; now rewrite <- IH.
Qed.

Lemma before_first_not_in (c : ascii) (s : str) : ~ In c (before_first c s).
Proof.
  induction s as [|x t IH]; simpl; [tauto|].
  destruct (Ascii.eqb x c) eqn:E; simpl; [tauto|].
  apply Ascii.eqb_neq in E. intros [H|H]; [congruence | tauto].
Qed.

Lemma before_first_app_in (c : ascii) (s t : str) :
  In c s -> before_first c (s ++ t) = before_first c s.
Proof.
  induction s as [|x s IH]; simpl; [tauto|].
  destruct (Ascii.eqb x c) eqn:E; [reflexivity|].
  apply Ascii.eqb_neq in E. intros [H|H]; [congruence|]. now rewrite IH.
Qed.

Lemma before_first_app_not_in (c : ascii) (s t : str) :
  ~ In c s -> before_first c (s ++ t) = s ++ before_first c t.
Proof.
  induction s as [|x s IH]; simpl; [reflexivity|].
  intros H. destruct (Ascii.eqb x c) eqn:E.
  - apply Ascii.eqb_eq in E. tauto.
  - rewrite IH by tauto. reflexivity.
Qed.

Lemma before_first_none (c : ascii) (s : str) : ~ In c s -> before_first c s = s.
Proof.
  intros H. rewrite <- (app_nil_r s) at 1.
  rewrite before_first_app_not_in by assumption. simpl. apply app_nil_r.
Qed.

Lemma before_first_snoc (c : ascii) (s : str) :
  ~ In c s -> before_first c (s ++ [c]) = s.
Proof.
  intros H. rewrite before_first_app_not_in by assumption. simpl.
  rewrite Ascii.eqb_refl. apply app_nil_r.
Qed.

Lemma trimmed_no_terminator_fixed (r : str) :
  trimmed r -> ~ In ";"%char r -> sanitize_sql_query r = r.
Proof.
  intros Ht Hn. unfold sanitize_sql_query. rewrite (strip_fixed r Ht).
  destruct (snoc_cases r) as [->|(r' & x & ->)]; [reflexivity|].
  unfold semicolon. rewrite endswith_char_snoc.
  destruct (Ascii.eqb ";" x) eqn:E.
  - apply Ascii.eqb_eq in E. subst x. exfalso. apply Hn.
    rewrite in_app_iff. right. now left.
  - rewrite but_last_snoc.
    assert (F : str_in [";"%char] r' = false).
    { apply str_in_char_false. intros H. apply Hn. rewrite in_app_iff. now left. }
    now rewrite F.
Qed.

(* ================================================================= *)
(** ** The safety gate: [sanitize_sql_query] *)

Lemma in_but_last (c : ascii) (s : str) : In c (but_last s) -> In c s.
Proof.
  destruct (snoc_cases s) as [->|(s' & x & ->)]; [tauto|].
  rewrite but_last_snoc, in_app_iff. tauto.
Qed.

Lemma strip_nil_all_space (s : str) : strip s = [] -> all_space s.
Proof.
  intros E. destruct (strip_split s) as (a & b & Es & Ha & Hb).
  rewrite E in Es. rewrite Es. simpl. apply Forall_app. now split.
Qed.

Lemma strip_length (s : str) : List.length (strip s) <= List.length s.
Proof.
  destruct (strip_split s) as (a & b & E & _ & _).
  rewrite E at 2. rewrite !length_app. lia.
Qed.

Lemma sanitize_unfold (q : str) :
  sanitize_sql_query q =
  if str_in semicolon (but_last (without_trailing_terminator q))
  then strip (before_first ";" (without_trailing_terminator q))
  else without_trailing_terminator q.
Proof.
  unfold sanitize_sql_query, without_trailing_terminator.
  now rewrite first_split.
Qed.

(** Where the text is cut, the result is trimmed and free of terminators. *)
Lemma cut_is_clean (s : str) :
  trimmed (strip (before_first ";" s)) /\ ~ In ";"%char (strip (before_first ";" s)).
Proof.
  split; [apply strip_trimmed|].
  intros H. apply in_strip in H. revert H. apply before_first_not_in.
Qed.

(** A text that does not end with [c] and has no [c] before its last
    character has no [c]. *)
Lemma not_in_from_but_last (c : ascii) (s : str) :
  endswith s [c] = false -> ~ In c (but_last s) -> ~ In c s.
Proof.
  destruct (snoc_cases s) as [->|(s' & x & ->)]; [tauto|].
  rewrite endswith_char_snoc, but_last_snoc, in_app_iff. intros E Hn [H|[H|[]]].
  - tauto.
  - subst x. now rewrite Ascii.eqb_refl in E.
Qed.

(** The fixed points of [sanitize_sql_query] are the trimmed texts without
    terminator. *)
Lemma sanitize_fixed_iff (r : str) :
  sanitize_sql_query r = r <-> (strip r = r /\ str_in semicolon r = false).
Proof.
  unfold semicolon. rewrite str_in_char_false. split.
  - rewrite sanitize_unfold. unfold without_trailing_terminator, semicolon.
    destruct (endswith (strip r) [";"%char]) eqn:Ee.
    + destruct (str_in [";"%char] (but_last (but_last (strip r)))) eqn:Ec.
      * intros <-. destruct (cut_is_clean (but_last (strip r))) as [Ht Hn].
        split; [now apply strip_fixed | exact Hn].
      * intros E. exfalso.
        destruct (snoc_cases (strip r)) as [En|(s' & x & Es)].
        { rewrite En in Ee. discriminate. }
        pose proof (strip_length r) as L. rewrite Es, but_last_snoc in E.
        rewrite Es, length_app, E in L. simpl in L. lia.
    + destruct (str_in [";"%char] (but_last (strip r))) eqn:Ec.
      * intros <-. destruct (cut_is_clean (strip r)) as [Ht Hn].
        split; [now apply strip_fixed | exact Hn].
      * intros E. split; [exact E|]. rewrite <- E.
        apply not_in_from_but_last; [exact Ee | now apply str_in_char_false].
  - intros [Es Hn]. apply trimmed_no_terminator_fixed; [|exact Hn].
    rewrite <- Es. apply strip_trimmed.
Qed.

(** Without a trailing terminator in the trimmed input, the result is a fixed
    point. *)
Lemma sanitize_clean_without_trailing (q : str) :
  endswith (strip q) semicolon = false ->
  strip (sanitize_sql_query q) = sanitize_sql_query q
  /\ str_in semicolon (sanitize_sql_query q) = false.
Proof.
  intros Ee. rewrite sanitize_unfold. unfold without_trailing_terminator.
  rewrite Ee. unfold semicolon in *.
  destruct (str_in [";"%char] (but_last (strip q))) eqn:Ec.
  - destruct (cut_is_clean (strip q)) as [Ht Hn].
    split; [now apply strip_fixed | now apply str_in_char_false].
  - split; [apply strip_idempotent|]. apply str_in_char_false.
    apply not_in_from_but_last; [exact Ee | now apply str_in_char_false].
Qed.

(** The text before the first terminator survives trimming of the input. *)
Lemma before_first_strip (q : str) :
  In ";"%char q ->
  strip (before_first ";" q) = strip (before_first ";" (strip q)).
Proof.
  intros Hin. destruct (strip_split q) as (a & b & E & Ha & Hb).
  assert (Hs : In ";"%char (strip q)) by now apply in_strip_iff.
  rewrite E at 1.
  rewrite before_first_app_not_in
    by (apply all_space_not_in; [reflexivity | exact Ha]).
  rewrite before_first_app_in by exact Hs. now apply strip_all_space.
Qed.

(** The shape [dangling_terminator] names. *)
Lemma dangling_terminator_shape (q : str) :
  dangling_terminator q = true <->
  exists t c, strip q = t ++ [c; ";"%char] /\ ~ In ";"%char t
              /\ (is_space c = true \/ c = ";"%char).
Proof.
  unfold dangling_terminator, semicolon. split.
  - intros H. apply Bool.andb_true_iff in H. destruct H as [H H3].
    apply Bool.andb_true_iff in H. destruct H as [H1 H2].
    destruct (snoc_cases (strip q)) as [En|(s0 & x & Es)].
    { rewrite En in H1. discriminate. }
    rewrite Es in *. rewrite endswith_char_snoc in H1.
    apply Ascii.eqb_eq in H1. subst x. rewrite but_last_snoc in H2, H3.
    destruct (snoc_cases s0) as [En|(t & c & Et)].
    { subst s0. discriminate. }
    subst s0. rewrite but_last_snoc in H2. rewrite rev_app_distr in H3.
    simpl in H3. exists t, c. rewrite <- app_assoc. simpl. repeat split.
    + apply str_in_char_false. now apply Bool.negb_true_iff.
    + apply Bool.orb_true_iff in H3. destruct H3 as [H3|H3]; [now left|].
      right. now apply Ascii.eqb_eq.
  - intros (t & c & Es & Hn & Hc). rewrite Es.
    change (t ++ [c; ";"%char]) with (t ++ [c] ++ [";"%char]).
    rewrite app_assoc, endswith_char_snoc, !but_last_snoc, Ascii.eqb_refl.
    apply str_in_char_false in Hn. rewrite Hn, rev_app_distr. simpl.
    destruct Hc as [Hc| ->]; [now rewrite Hc|].
    now rewrite Ascii.eqb_refl, Bool.orb_true_r.
Qed.

(** Truncation, in general: any terminator, no dangling one. *)
Lemma sanitize_truncates (q : str) :
  In ";"%char q -> dangling_terminator q = false ->
  sanitize_sql_query q = strip (before_first ";" q).
Proof.
  intros Hin Hd. rewrite before_first_strip by exact Hin.
  assert (Hs : In ";"%char (strip q)) by now apply in_strip_iff.
  rewrite sanitize_unfold. unfold without_trailing_terminator.
  unfold dangling_terminator in Hd. unfold semicolon in *.
  destruct (endswith (strip q) [";"%char]) eqn:Ee.
  - destruct (snoc_cases (strip q)) as [En|(s0 & x & Es)].
    { rewrite En in Ee. discriminate. }
    pose proof (strip_trimmed q) as Ht. rewrite Es in *.
    rewrite endswith_char_snoc in Ee. apply Ascii.eqb_eq in Ee. subst x.
    rewrite !but_last_snoc in *.
    destruct (str_in [";"%char] (but_last s0)) eqn:Ec.
    + f_equal. symmetry. apply before_first_app_in.
      apply in_but_last. now apply str_in_char.
    + simpl in Hd. apply str_in_char_false in Ec.
      assert (Hl : match rev s0 with
                   | c :: _ => is_space c = false /\ c <> ";"%char
                   | [] => True
                   end).
      { destruct (rev s0) as [|c ?]; [exact I|].
        apply Bool.orb_false_iff in Hd. destruct Hd as [Hd1 Hd2].
        split; [exact Hd1 | now apply Ascii.eqb_neq]. }
      assert (Hn : ~ In ";"%char s0).
      { destruct (snoc_cases s0) as [->|(t & c & ->)]; [tauto|].
        rewrite but_last_snoc in Ec. rewrite rev_app_distr in Hl. simpl in Hl.
        rewrite in_app_iff. intros [H|[H|[]]]; [tauto|]. now destruct Hl. }
      rewrite before_first_snoc by exact Hn. symmetry. apply strip_fixed.
      apply (trimmed_prefix s0 ";"%char Ht).
      destruct (rev s0); [exact I | now destruct Hl].
  - assert (Ec : str_in [";"%char] (but_last (strip q)) = true).
    { destruct (str_in [";"%char] (but_last (strip q))) eqn:Ec; [reflexivity|].
      exfalso. apply str_in_char_false in Ec.
      now apply (not_in_from_but_last _ _ Ee Ec). }
    now rewrite Ec.
Qed.

(** The dangling shape [t c ;]: only its last terminator is removed, and what
    is left is not the text before the first terminator, trimmed. *)
Lemma sanitize_dangling (q : str) :
  dangling_terminator q = true ->
  endswith (strip q) semicolon = true
  /\ sanitize_sql_query q = but_last (strip q)
  /\ sanitize_sql_query q <> strip (before_first ";" q).
Proof.
  intros Hd. apply dangling_terminator_shape in Hd.
  destruct Hd as (t & c & Es & Hn & Hc).
  assert (Es' : strip q = (t ++ [c]) ++ [";"%char]) by now rewrite <- app_assoc.
  assert (Ee : endswith (strip q) semicolon = true).
  { unfold semicolon. rewrite Es', endswith_char_snoc. apply Ascii.eqb_refl. }
  assert (E : sanitize_sql_query q = but_last (strip q)).
  { rewrite sanitize_unfold. unfold without_trailing_terminator. rewrite Ee.
    rewrite Es', !but_last_snoc. apply str_in_char_false in Hn.
    unfold semicolon. now rewrite Hn. }
  split; [exact Ee|]. split; [exact E|].
  rewrite E, Es', but_last_snoc. intros H.
  destruct (cut_is_clean q) as [[_ Ht] Hnot]. rewrite <- H in Ht, Hnot.
  destruct Hc as [Hc| ->].
  - rewrite rev_app_distr in Ht. simpl in Ht. congruence.
  - apply Hnot. rewrite in_app_iff. right. now left.
Qed.

Lemma terminator_not_at_end_in (q : str) :
  terminator_not_at_end q = true -> In ";"%char q.
Proof.
  unfold terminator_not_at_end, semicolon. intros H.
  apply in_but_last. now apply str_in_char.
Qed.

(** C3 as stated fails: the sanitised form of ["a ;"] keeps its trailing
    blank, which a second pass removes. *)
Lemma sanitize_not_idempotent :
  sanitize_sql_query (sanitize_sql_query (py "a ;"))
  <> sanitize_sql_query (py "a ;").
Proof. vm_compute. discriminate. Qed.

(** C3, amended: a second pass of [sanitize_sql_query] changes nothing
    exactly when the first result has no white space at its ends and holds no
    terminator; that is so for every input whose trimmed text does not end
    with a terminator. *)
Theorem sanitize_idempotent_when_clean (q : str) :
  (sanitize_sql_query (sanitize_sql_query q) = sanitize_sql_query q
   <-> (strip (sanitize_sql_query q) = sanitize_sql_query q
        /\ str_in semicolon (sanitize_sql_query q) = false))
  /\ (endswith (strip q) semicolon = false ->
      sanitize_sql_query (sanitize_sql_query q) = sanitize_sql_query q).
Proof.
  split; [apply sanitize_fixed_iff|].
  intros H. apply sanitize_fixed_iff. now apply sanitize_clean_without_trailing.
Qed.

Lemma sanitize_idempotent_when_clean_witness :
  endswith (strip (py " SELECT 1 ; DROP TABLE t ")) semicolon = false
  /\ sanitize_sql_query (sanitize_sql_query (py " SELECT 1 ; DROP TABLE t "))
     = sanitize_sql_query (py " SELECT 1 ; DROP TABLE t ").
Proof.
  split; [reflexivity|].
  apply (proj2 (sanitize_idempotent_when_clean (py " SELECT 1 ; DROP TABLE t "))).
  reflexivity.
Defined.

(** C4 as stated fails: ["a;;"] has a terminator that is not its last
    character, and is sanitised to ["a;"], not to ["a"]. *)
Lemma sanitize_truncation_fails :
  terminator_not_at_end (py "a;;") = true
  /\ sanitize_sql_query (py "a;;") = py "a;"
  /\ strip (before_first ";" (py "a;;")) = py "a"
  /\ sanitize_sql_query (py "a;;") <> strip (before_first ";" (py "a;;")).
Proof. repeat split. vm_compute. discriminate. Qed.

(** C4, amended: for every input with a terminator that is not its last
    character, [sanitize_sql_query] returns the text before the first
    terminator, trimmed, unless the trimmed input has the shape [t c ;] with
    no terminator in [t] and [c] white space or a terminator; for an input of
    that shape it returns the trimmed input without its last terminator,
    which is another text. *)
Theorem sanitize_truncates_before_first_terminator (q : str) :
  terminator_not_at_end q = true ->
  (dangling_terminator q = false ->
   sanitize_sql_query q = strip (before_first ";" q))
  /\ (dangling_terminator q = true ->
      endswith (strip q) semicolon = true
      /\ sanitize_sql_query q = but_last (strip q)
      /\ sanitize_sql_query q <> strip (before_first ";" q)).
Proof.
  intros H. split.
  - apply sanitize_truncates. now apply terminator_not_at_end_in.
  - apply sanitize_dangling.
Qed.

Lemma sanitize_truncates_before_first_terminator_witness :
  (sanitize_sql_query (py "SELECT 1; DROP TABLE employees")
   = strip (before_first ";" (py "SELECT 1; DROP TABLE employees"))
   /\ strip (before_first ";" (py "SELECT 1; DROP TABLE employees")) = py "SELECT 1")
  /\ (sanitize_sql_query (py " a ; ") = but_last (strip (py " a ; "))
      /\ but_last (strip (py " a ; ")) = py "a ").
Proof.
  split; (split; [|reflexivity]).
  - apply (proj1 (sanitize_truncates_before_first_terminator
                    (py "SELECT 1; DROP TABLE employees") eq_refl)).
    reflexivity.
  - apply (proj2 (sanitize_truncates_before_first_terminator (py " a ; ") eq_refl)).
    reflexivity.
Defined.

(* ================================================================= *)
(** ** The safety gate on an empty first statement *)

Lemma validate_empty : validate_sql_query [] = true.
Proof. reflexivity. Qed.

Lemma sanitize_of_stripped (q : str) (s : str) :
  strip q = s -> sanitize_sql_query q = sanitize_sql_query s.
Proof.
  intros E. unfold sanitize_sql_query. rewrite <- E. now rewrite strip_idempotent.
Qed.

(** With an empty first statement, the only dangling shape is [;;]. *)
Lemma dangling_with_empty_first (q : str) :
  strip (before_first ";" q) = [] -> In ";"%char q ->
  dangling_terminator q = true -> strip q = py ";;".
Proof.
  intros He Hin Hd. apply dangling_terminator_shape in Hd.
  destruct Hd as (t & c & Es & Hn & Hc).
  rewrite before_first_strip in He by exact Hin.
  pose proof (strip_trimmed q) as [Hh _]. rewrite Es in He, Hh.
  apply strip_nil_all_space in He.
  rewrite before_first_app_not_in in He by exact Hn.
  destruct t as [|x t].
  - simpl in Hh. destruct Hc as [Hc| ->]; [congruence|]. rewrite Es. reflexivity.
  - simpl in Hh. inversion He; subst. congruence.
Qed.

(** C10 as stated fails: the text before the first terminator of [";;"] is
    empty, and the gate returns [(true, ";")]. *)
Lemma gate_on_two_terminators :
  strip (before_first ";" (py ";;")) = []
  /\ validate_and_sanitize_query (py ";;") = (true, py ";")
  /\ validate_and_sanitize_query (py ";;") <> (true, []).
Proof. repeat split. vm_compute. discriminate. Qed.

(** C10, amended: when the text before the first terminator is empty after
    trimming, the gate approves: it returns [(true, "")], unless the trimmed
    input is exactly [";;"], for which it returns [(true, ";")]. *)
Theorem gate_approves_empty_statement (q : str) :
  strip (before_first ";" q) = [] ->
  (strip q <> py ";;" -> validate_and_sanitize_query q = (true, []))
  /\ (strip q = py ";;" -> validate_and_sanitize_query q = (true, py ";")).
Proof.
  intros He. unfold validate_and_sanitize_query. split.
  - intros Hne.
    assert (E : sanitize_sql_query q = []).
    { destruct (in_dec ascii_dec ";"%char q) as [Hin|Hout].
      - destruct (dangling_terminator q) eqn:Hd.
        + exfalso. apply Hne. now apply dangling_with_empty_first.
        + rewrite sanitize_truncates by assumption. exact He.
      - rewrite before_first_none in He by exact Hout.
        now rewrite (sanitize_of_stripped q [] He). }
    rewrite E. reflexivity.
  - intros Es. rewrite (sanitize_of_stripped q _ Es). reflexivity.
Qed.

Lemma gate_approves_empty_statement_witness :
  strip (before_first ";" (py "; DROP TABLE t")) = []
  /\ validate_and_sanitize_query (py "; DROP TABLE t") = (true, []).
Proof.
  split; [reflexivity|].
  apply (gate_approves_empty_statement (py "; DROP TABLE t")).
  - reflexivity.
  - vm_compute. discriminate.
Defined.

(* ================================================================= *)
(** ** The safety gate: [validate_sql_query] *)

Ltac each_char c :=
  destruct c as [[] [] [] [] [] [] [] []]; try reflexivity; try discriminate.

Lemma is_word_lower_char (c : ascii) : is_word (lower_char c) = is_word c.
Proof. each_char c. Qed.

Lemma is_word_not_space (c : ascii) : is_word c = true -> is_space c = false.
Proof. each_char c. Qed.

Lemma startswith_app (kw rest : str) : startswith (kw ++ rest) kw = true.
Proof.
  induction kw as [|c kw IH]; simpl; [apply startswith_nil|].
  now rewrite Ascii.eqb_refl, IH.
Qed.

Lemma skipn_length_app (kw rest : str) : skipn (List.length kw) (kw ++ rest) = rest.
Proof. induction kw as [|c kw IH]; simpl; [reflexivity | exact IH]. Qed.

Lemma last_char_cons (prev : option ascii) (c : ascii) (s : str) :
  last_char prev (c :: s) = last_char (Some c) s.
Proof.
  unfold last_char. simpl. destruct (snoc_cases s) as [->|(s' & x & ->)].
  - reflexivity.
  - now rewrite rev_app_distr.
Qed.

Lemma last_char_word (prev : option ascii) (kw : str) :
  kw <> [] -> forallb is_word kw = true -> is_word_opt (last_char prev kw) = true.
Proof.
  intros Hne Hw. destruct (snoc_cases kw) as [->|(s' & x & ->)]; [congruence|].
  unfold last_char. rewrite rev_app_distr. simpl.
  rewrite forallb_app in Hw. apply Bool.andb_true_iff in Hw.
  destruct Hw as [_ Hw]. simpl in Hw. now rewrite Bool.andb_true_r in Hw.
Qed.

(** A literal made of word characters is found wherever it stands between
    two positions outside a word. *)
Lemma search_finds (kw post : str) :
  kw <> [] -> forallb is_word kw = true ->
  is_word_opt (hd_error post) = false ->
  forall (pre : str) (prev : option ascii),
    is_word_opt (last_char prev pre) = false ->
    search_from prev kw (pre ++ kw ++ post) = true.
Proof.
  intros Hne Hw Hpost. induction pre as [|c pre IH]; intros prev Hprev.
  - simpl app. destruct kw as [|k kw']; [congruence|].
    assert (Hm : match_here prev (k :: kw') ((k :: kw') ++ post) = true).
    { unfold match_here. rewrite startswith_app, skipn_length_app.
      unfold boundary. rewrite (last_char_word prev (k :: kw') Hne Hw), Hpost.
      unfold last_char in Hprev. simpl in Hprev. rewrite Hprev.
      simpl in Hw. apply Bool.andb_true_iff in Hw. destruct Hw as [Hk _].
      simpl. now rewrite Hk. }
    simpl app in Hm. simpl search_from. now rewrite Hm.
  - simpl. rewrite IH; [apply Bool.orb_true_r|].
    now rewrite <- last_char_cons with (prev := prev).
Qed.

Lemma no_keyword_found (keywords : list str) (kw text : str) :
  In kw keywords -> re_search_word kw text = true -> no_keyword keywords text = false.
Proof.
  induction keywords as [|k ks IH]; simpl; [tauto|].
  intros [->|Hin] Hs; [now rewrite Hs|].
  destruct (re_search_word k text); [reflexivity | now apply IH].
Qed.

(** [lstrip] and [rstrip] next to a text that starts, or ends, with a
    character that is not white space. *)
Lemma lstrip_before (p m : str) :
  match m with c :: _ => is_space c = false | [] => False end ->
  lstrip (p ++ m) = lstrip p ++ m.
Proof.
  intros Hm. induction p as [|c p IH]; simpl.
  - destruct m as [|x m]; [tauto|]. simpl. now rewrite Hm.
  - destruct (is_space c); [exact IH | reflexivity].
Qed.

Lemma rstrip_after (m r : str) :
  match rev m with c :: _ => is_space c = false | [] => False end ->
  rstrip (m ++ r) = m ++ rstrip r.
Proof.
  intros Hm. unfold rstrip. rewrite rev_app_distr, lstrip_before by exact Hm.
  now rewrite rev_app_distr, rev_involutive.
Qed.

Lemma last_char_lstrip (p : str) :
  is_word_opt (last_char None p) = false ->
  is_word_opt (last_char None (lstrip p)) = false.
Proof.
  destruct (lstrip_split p) as (a & E & _ & _). intros H.
  destruct (snoc_cases (lstrip p)) as [En|(s' & x & Es)].
  - now rewrite En.
  - rewrite Es. rewrite E, Es, app_assoc in H. unfold last_char in *.
    rewrite rev_app_distr in *. exact H.
Qed.

Lemma hd_rstrip (r : str) :
  is_word_opt (hd_error r) = false -> is_word_opt (hd_error (rstrip r)) = false.
Proof.
  destruct (rstrip_split r) as (b & E & _ & _). intros H.
  destruct (rstrip r) as [|x t]; [reflexivity|]. rewrite E in H. exact H.
Qed.

Lemma last_char_lower (s : str) :
  is_word_opt (last_char None (lower s)) = is_word_opt (last_char None s).
Proof.
  unfold last_char, lower. rewrite <- map_rev.
  destruct (rev s) as [|c t]; [reflexivity|]. simpl. apply is_word_lower_char.
Qed.

Lemma hd_lower (s : str) :
  is_word_opt (hd_error (lower s)) = is_word_opt (hd_error s).
Proof. destruct s as [|c t]; [reflexivity|]. simpl. apply is_word_lower_char. Qed.

(** Trimming keeps a word that stands between its neighbours. *)
Lemma strip_around_word (p w r : str) :
  w <> [] -> forallb is_word w = true ->
  strip (p ++ w ++ r) = lstrip p ++ w ++ rstrip r.
Proof.
  intros Hne Hw. unfold strip.
  assert (Hh : match w ++ r with c :: _ => is_space c = false | [] => False end).
  { destruct w as [|c w]; [congruence|]. simpl in *.
    apply Bool.andb_true_iff in Hw. now apply is_word_not_space. }
  rewrite lstrip_before by exact Hh. rewrite !app_assoc.
  rewrite rstrip_after; [reflexivity|].
  rewrite rev_app_distr.
  destruct (snoc_cases w) as [->|(w' & x & ->)]; [congruence|].
  rewrite rev_app_distr. simpl. rewrite forallb_app in Hw.
  apply Bool.andb_true_iff in Hw. destruct Hw as [_ Hw]. simpl in Hw.
  apply is_word_not_space. now rewrite Bool.andb_true_r in Hw.
Qed.

Lemma dangerous_keywords_are_words :
  Forall (fun w => w <> [] /\ forallb is_word w = true) dangerous_keywords.
Proof. repeat constructor; discriminate. Qed.

(** C5: a query that holds one of the thirteen keywords, in any letter case,
    as a word of its own (between the ends of the text or characters outside
    [\w]) is rejected by [validate_sql_query]; ["select * from t"] is
    accepted. *)
Theorem validate_rejects_every_keyword :
  (forall (w pre v post : str),
      In w dangerous_keywords ->
      lower v = w ->
      ends_outside_word pre = true ->
      starts_outside_word post = true ->
      validate_sql_query (pre ++ v ++ post) = false)
  /\ validate_sql_query (py "select * from t") = true.
Proof.
  split; [|reflexivity].
  intros w pre v post Hin Hv Hpre Hpost.
  pose proof dangerous_keywords_are_words as Hall.
  rewrite Forall_forall in Hall. destruct (Hall w Hin) as [Hne Hw].
  unfold validate_sql_query, lower. rewrite !map_app.
  fold (lower pre) (lower v) (lower post). rewrite Hv.
  rewrite strip_around_word by assumption.
  apply no_keyword_found with (kw := w); [exact Hin|].
  unfold re_search_word. apply search_finds; try assumption.
  - apply hd_rstrip. rewrite hd_lower.
    now apply Bool.negb_true_iff in Hpost.
  - apply last_char_lstrip. rewrite last_char_lower.
    now apply Bool.negb_true_iff in Hpre.
Qed.

Lemma validate_rejects_every_keyword_witness :
  In (py "delete") dangerous_keywords
  /\ lower (py "DeLeTe") = py "delete"
  /\ validate_sql_query
       (py "select * from t where x = (" ++ py "DeLeTe" ++ py ");") = false.
Proof.
  split; [vm_compute; tauto|]. split; [reflexivity|].
  apply (proj1 validate_rejects_every_keyword (py "delete")); try reflexivity.
  vm_compute. tauto.
Defined.

(* ================================================================= *)
(** ** Retrieval *)

Section RetrievalProperties.

Variable Vec : Type.
Variable encode : str -> Vec.
Variable Score : Type.
Variable inner : Vec -> Vec -> Score.
Variable score_leb : Score -> Score -> bool.
Variable pad_score : Score.

Local Abbreviation nearest := (nearest Vec Score inner score_leb pad_score).
Local Abbreviation sort_desc := (sort_desc Score score_leb).
Local Abbreviation insert_desc := (insert_desc Score score_leb).
Local Abbreviation labelled := (labelled Vec Score inner).
Local Abbreviation collect := (collect Score).
Local Abbreviation retrieve_relevant_tables :=
  (retrieve_relevant_tables Vec encode Score inner score_leb pad_score).

(** *** The search returns [k] places holding slots of the index, or [-1] *)

Lemma insert_desc_length x l : List.length (insert_desc x l) = S (List.length l).
Proof.
  induction l as [|y r IH]; simpl; [reflexivity|].
  destruct (score_leb (fst y) (fst x)); simpl; [reflexivity | now rewrite IH].
Qed.

Lemma sort_desc_length l : List.length (sort_desc l) = List.length l.
Proof.
  induction l as [|x l IH]; simpl; [reflexivity|].
  now rewrite insert_desc_length, IH.
Qed.

Lemma insert_desc_Forall (P : Score * Z -> Prop) x l :
  P x -> Forall P l -> Forall P (insert_desc x l).
Proof.
  intros Hx. induction 1 as [|y r Hy Hr IH]; simpl.
  - now repeat constructor.
  - destruct (score_leb (fst y) (fst x)); repeat constructor; assumption.
Qed.

Lemma sort_desc_Forall (P : Score * Z -> Prop) l :
  Forall P l -> Forall P (sort_desc l).
Proof.
  induction 1 as [|x l Hx Hl IH]; simpl; [constructor|].
  now apply insert_desc_Forall.
Qed.

Lemma labelled_length q index : List.length (labelled q index) = List.length index.
Proof.
  unfold labelled. rewrite length_combine, !length_map, length_seq. lia.
Qed.

Lemma labelled_slots q index : Forall (slot_of (List.length index)) (labelled q index).
Proof.
  apply Forall_forall. intros [s z] Hin. unfold labelled in Hin.
  apply in_combine_r in Hin. apply in_map_iff in Hin.
  destruct Hin as (i & <- & Hi). apply in_seq in Hi. unfold slot_of. simpl. lia.
Qed.

Lemma firstn_Forall {A} (P : A -> Prop) (n : nat) (l : list A) :
  Forall P l -> Forall P (firstn n l).
Proof.
  intros H. revert n. induction H as [|x l Hx Hl IH]; intros [|n]; simpl;
    constructor; auto.
Qed.

Lemma nearest_length index q k : List.length (nearest index q k) = k.
Proof.
  unfold nearest. rewrite length_app, repeat_length, length_firstn. lia.
Qed.

(** The best places, then the padding. *)
Lemma nearest_shape index q k :
  exists best,
    nearest index q k
    = best ++ repeat (pad_score, (-1)%Z) (k - Nat.min k (List.length index))
    /\ List.length best = Nat.min k (List.length index)
    /\ Forall (slot_of (List.length index)) best.
Proof.
  exists (firstn k (sort_desc (labelled q index))).
  assert (L : List.length (firstn k (sort_desc (labelled q index)))
              = Nat.min k (List.length index)).
  { now rewrite length_firstn, sort_desc_length, labelled_length. }
  unfold nearest. rewrite L. repeat split.
  apply firstn_Forall, sort_desc_Forall, labelled_slots.
Qed.

(** *** The loop of [retrieve_relevant_tables] *)

Lemma py_index_slot {A} (l : list A) (idx : Z) :
  (0 <= idx < Z.of_nat (List.length l))%Z ->
  exists a, py_index l idx = Ok a /\ nth_error l (Z.to_nat idx) = Some a.
Proof.
  intros H. unfold py_index.
  destruct (Z.ltb_spec idx 0); [lia|]. destruct (Z.ltb_spec idx 0); [lia|].
  destruct (nth_error l (Z.to_nat idx)) as [a|] eqn:E; [now exists a|].
  apply nth_error_None in E. lia.
Qed.

(** [l[-1]] is the last element. *)
Lemma py_index_minus_one {A} (l : list A) (x : A) :
  py_index (l ++ [x]) (-1) = Ok x.
Proof.
  unfold py_index. rewrite length_app. simpl.
  destruct (Z.ltb_spec (-1) 0); [|lia].
  destruct (Z.ltb_spec (Z.of_nat (List.length l + 1) + -1) 0); [lia|].
  replace (Z.to_nat (Z.of_nat (List.length l + 1) + -1)) with (List.length l) by lia.
  now rewrite nth_error_app2, Nat.sub_diag by lia.
Qed.

Lemma collect_app tds a b ra rb :
  collect tds a = Ok ra -> collect tds b = Ok rb ->
  collect tds (a ++ b) = Ok (ra ++ rb).
Proof.
  revert ra. induction a as [|[s idx] a IH]; intros ra Ha Hb; simpl in *.
  - injection Ha as <-. exact Hb.
  - destruct (idx <? Z.of_nat (List.length tds))%Z.
    + destruct (py_index tds idx) as [t|e]; simpl in *; [|discriminate].
      destruct (collect tds a) as [ra'|e]; simpl in *; [|discriminate].
      injection Ha as <-. now rewrite (IH ra' eq_refl Hb).
    + now apply IH.
Qed.

(** Every place that holds a slot of the descriptor list yields a result. *)
Lemma collect_slots tds found :
  Forall (slot_of (List.length tds)) found ->
  exists r, collect tds found = Ok r /\ List.length r = List.length found.
Proof.
  induction 1 as [|[s idx] found Hx Hf (r & Er & Lr)]; simpl.
  - now exists [].
  - unfold slot_of in Hx. simpl in Hx.
    destruct (Z.ltb_spec idx (Z.of_nat (List.length tds))); [|lia].
    destruct (py_index_slot tds idx Hx) as (t & Et & _). rewrite Et, Er. simpl.
    eexists. split; [reflexivity|]. simpl. now rewrite Lr.
Qed.

(** Each padding place yields the last descriptor, under the pad score. *)
Lemma collect_padding tds last n :
  collect (tds ++ [last]) (repeat (pad_score, (-1)%Z) n)
  = Ok (repeat {| table_info := last; similarity_score := pad_score |} n).
Proof.
  induction n as [|n IH]; simpl; [reflexivity|].
  destruct (Z.ltb_spec (-1) (Z.of_nat (List.length (tds ++ [last])))); [|lia].
  now rewrite py_index_minus_one, IH.
Qed.

(** On an empty descriptor list the first padding place already raises:
    [-1 < 0] passes the guard and [[][-1]] is out of range. *)
Lemma collect_padding_empty n :
  collect [] (repeat (pad_score, (-1)%Z) (S n)) = Raise IndexError.
Proof. reflexivity. Qed.

Lemma firstn_all_of_search index q k :
  firstn (Nat.min (List.length (nearest index q k)) k) (nearest index q k)
  = nearest index q k.
Proof.
  rewrite nearest_length, Nat.min_id.
  rewrite <- (nearest_length index q k) at 1. apply firstn_all.
Qed.

(** With [k = 0] the search fails its assertion; with [k >= 1] the loop
    runs over all [k] places of the search result. *)
Lemma retrieve_zero (self : RAGSystem Vec) query min_score :
  retrieve_relevant_tables self query 0 min_score = Raise AssertionError.
Proof. reflexivity. Qed.

Lemma retrieve_positive (self : RAGSystem Vec) query k min_score :
  0 < k ->
  retrieve_relevant_tables self query k min_score
  = collect (table_descriptions self) (nearest (index self) (encode query) k).
Proof.
  intros Hk. unfold retrieve_relevant_tables, index_search.
  destruct (Nat.ltb_spec 0 k); [|lia].
  unfold bind. now rewrite firstn_all_of_search.
Qed.

Lemma collect_length_le tds found r :
  collect tds found = Ok r -> List.length r <= List.length found.
Proof.
  revert r. induction found as [|[s idx] found IH]; intros r H; simpl in *.
  - injection H as <-. simpl. lia.
  - destruct (idx <? Z.of_nat (List.length tds))%Z.
    + destruct (py_index tds idx) as [t|e]; simpl in *; [|discriminate].
      destruct (collect tds found) as [r'|e]; simpl in *; [|discriminate].
      injection H as <-. simpl. specialize (IH r' eq_refl). lia.
    + specialize (IH r H). lia.
Qed.

(** The bound of C2 that the code keeps: never more than [k] results. *)
Lemma retrieve_at_most_k (self : RAGSystem Vec) query k min_score r :
  retrieve_relevant_tables self query k min_score = Ok r -> List.length r <= k.
Proof.
  destruct k as [|k]; [rewrite retrieve_zero; discriminate|].
  rewrite retrieve_positive by lia. intros H.
  apply collect_length_le in H. now rewrite nearest_length in H.
Qed.

(** C2: with [n] descriptors, [1 <= n < k], [retrieve_relevant_tables]
    returns [k] results and not [n]: the [n] descriptors, then [k - n] copies
    of the last descriptor of the list under the pad score, one for each
    label [-1] of the search. *)
Theorem retrieve_pads_small_index (self : RAGSystem Vec) query k min_score
    (tds : list TableDescription) (last : TableDescription) :
  table_descriptions self = tds ++ [last] ->
  List.length (index self) = List.length (table_descriptions self) ->
  List.length (table_descriptions self) < k ->
  exists best,
    retrieve_relevant_tables self query k min_score
    = Ok (best ++ repeat {| table_info := last; similarity_score := pad_score |}
                         (k - List.length (table_descriptions self)))
    /\ List.length best = List.length (table_descriptions self).
Proof.
  intros Et Hc Hk. rewrite retrieve_positive by lia.
  destruct (nearest_shape (index self) (encode query) k) as (best & Es & Lb & Fb).
  rewrite Es. rewrite Hc in *. replace (Nat.min k _) with (List.length (table_descriptions self)) in * by lia.
  destruct (collect_slots (table_descriptions self) best Fb) as (r & Er & Lr).
  exists r. split; [|lia].
  apply collect_app; [exact Er|]. rewrite Et. apply collect_padding.
Qed.

(** With no descriptor at all and [k >= 1], the call raises. *)
Lemma retrieve_on_empty_raises (self : RAGSystem Vec) query k min_score :
  table_descriptions self = [] -> index self = [] ->
  retrieve_relevant_tables self query (S k) min_score = Raise IndexError.
Proof.
  intros Et Ei. rewrite retrieve_positive by lia.
  unfold nearest. rewrite Ei, Et. reflexivity.
Qed.

(** C6: [min_score] takes no part in the result of
    [retrieve_relevant_tables]: whatever its value, the same descriptors come
    back under the same scores. *)
Theorem min_score_is_ignored (self : RAGSystem Vec) (query : str) (k : nat)
    (min_score min_score' : Score) :
  retrieve_relevant_tables self query k min_score
  = retrieve_relevant_tables self query k min_score'.
Proof. reflexivity. Qed.

End RetrievalProperties.

(* ================================================================= *)
(** ** Descriptor building, append and rebuild *)

Section DescriptorProperties.

Variable repr_list : list str -> str.
Variable Vec : Type.
Variable encode : str -> Vec.

Local Abbreviation add_custom_table_descriptions :=
  (add_custom_table_descriptions repr_list Vec encode).
Local Abbreviation append_customs := (append_customs repr_list).
Local Abbreviation _build_index := (_build_index Vec encode).
Local Abbreviation coupled := (coupled Vec encode).
Local Abbreviation RAGSystem_init := (RAGSystem_init repr_list Vec encode).





Lemma append_customs_first_failure (good rest : list CustomTable)
    (ds : list TableDescription) (c : CustomTable) (e : exn) :
  map_result (custom_description repr_list) good = Ok ds ->
  custom_description repr_list c = Raise e ->
  forall tds, append_customs tds (good ++ c :: rest) = (tds ++ ds, Raise e).
Proof.
  revert ds. induction good as [|x good IH]; intros ds Hg Hc tds; simpl in *.
  - injection Hg as <-. now rewrite Hc, app_nil_r.
  - destruct (custom_description repr_list x) as [d|e0]; simpl in *; [|discriminate].
    destruct (map_result (custom_description repr_list) good) as [ds'|e0];
      simpl in *; [|discriminate].
    injection Hg as <-. rewrite (IH ds' eq_refl Hc). now rewrite <- app_assoc.
Qed.


(** *** The failures of descriptor building are [KeyError]s *)



















(** *** Append and rebuild *)

Lemma build_index_spec (self rebuilt : RAGSystem Vec) :
  _build_index self = Ok rebuilt ->
  table_descriptions rebuilt = table_descriptions self
  /\ index rebuilt = map encode (map td_text_description (table_descriptions self)).
Proof.
  unfold _build_index. destruct (nonempty _); [|discriminate].
  intros H. injection H as <-. now split.
Qed.

Lemma build_index_coupled (self rebuilt : RAGSystem Vec) :
  _build_index self = Ok rebuilt -> coupled rebuilt.
Proof.
  intros H. destruct (build_index_spec _ _ H) as [Et Ei].
  unfold coupled. rewrite Et, Ei. split.
  - now rewrite !length_map.
  - intros i td Hi. rewrite map_map. now rewrite nth_error_map, Hi.
Qed.

Lemma build_index_ok (self : RAGSystem Vec) :
  table_descriptions self <> [] ->
  _build_index self
  = Ok {| table_descriptions := table_descriptions self;
          index := map encode (map td_text_description (table_descriptions self)) |}.
Proof.
  unfold _build_index. destruct (table_descriptions self); [congruence|reflexivity].
Qed.

(** The build fails exactly on the empty descriptor list. *)
Lemma build_index_succeeds_iff (self : RAGSystem Vec) :
  (exists rebuilt, _build_index self = Ok rebuilt) <-> table_descriptions self <> [].
Proof.
  unfold _build_index. destruct (table_descriptions self) as [|d tds]; simpl.
  - split; [intros (r & H); discriminate | congruence].
  - split; [discriminate | intros _; now eexists].
Qed.

Lemma append_customs_ok (customs : list CustomTable) :
  forall tds tds',
    append_customs tds customs = (tds', Ok tt) ->
    exists added,
      map_result (custom_description repr_list) customs = Ok added
      /\ tds' = tds ++ added.
Proof.
  induction customs as [|x customs IH]; intros tds tds' H; simpl in *.
  - injection H as <-. exists []. now rewrite app_nil_r.
  - destruct (custom_description repr_list x) as [d|e]; [|discriminate].
    destruct (IH _ _ H) as (added & -> & ->). exists (d :: added).
    simpl. now rewrite <- app_assoc.
Qed.

Lemma map_result_length {A B} (f : A -> result B) (l : list A) (bs : list B) :
  map_result f l = Ok bs -> List.length bs = List.length l.
Proof.
  revert bs. induction l as [|x l IH]; intros bs H; simpl in *.
  - now injection H as <-.
  - destruct (f x) as [b|e]; simpl in *; [|discriminate].
    destruct (map_result f l) as [bs'|e]; simpl in *; [|discriminate].
    injection H as <-. simpl. now rewrite (IH bs' eq_refl).
Qed.

(** C9: when [add_custom_table_descriptions new] returns, the descriptor list
    is the old list followed by [len(new)] new descriptors, and the index has
    been rebuilt over the whole list: slot [i] holds the embedding of
    [table_descriptions[i]]. *)
Theorem add_custom_appends_and_rebuilds (self self' : RAGSystem Vec)
    (new : list CustomTable) :
  add_custom_table_descriptions self new = (self', Ok tt) ->
  exists added,
    table_descriptions self' = table_descriptions self ++ added
    /\ List.length added = List.length new
    /\ List.length (table_descriptions self')
       = List.length (table_descriptions self) + List.length new
    /\ map_result (custom_description repr_list) new = Ok added
    /\ index self' = map encode (map td_text_description (table_descriptions self'))
    /\ coupled self'.
Proof.
  unfold add_custom_table_descriptions.
  destruct (append_customs (table_descriptions self) new) as [tds' [[]|e]] eqn:Ea;
    [|discriminate].
  destruct (_build_index {| table_descriptions := tds'; index := index self |})
    as [rebuilt|e] eqn:Eb; intros H; [|discriminate].
  injection H as <-. destruct (append_customs_ok _ _ _ Ea) as (added & Em & ->).
  pose proof (map_result_length _ _ _ Em) as L.
  destruct (build_index_spec _ _ Eb) as [Et Ei]. simpl in Et, Ei.
  exists added. split; [exact Et|]. split; [exact L|].
  split; [rewrite Et, length_app; lia|]. split; [exact Em|].
  split; [now rewrite Et, Ei | exact (build_index_coupled _ _ Eb)].
Qed.

(** The constructor couples index and descriptor list too. *)
Lemma RAGSystem_init_coupled inspected customs (self : RAGSystem Vec) :
  RAGSystem_init inspected customs = Ok self -> coupled self.
Proof.
  unfold RAGSystem_init.
  destruct (_get_table_descriptions repr_list inspected customs) as [tds|e];
    simpl; [|discriminate].
  apply build_index_coupled.
Qed.

(** What the constructor returns: the descriptors that
    [_get_table_descriptions] built, under the index built from them. *)
Lemma RAGSystem_init_spec inspected customs (self : RAGSystem Vec) :
  RAGSystem_init inspected customs = Ok self ->
  _get_table_descriptions repr_list inspected customs = Ok (table_descriptions self)
  /\ index self = map encode (map td_text_description (table_descriptions self)).
Proof.
  unfold RAGSystem_init.
  destruct (_get_table_descriptions repr_list inspected customs) as [tds|e];
    simpl; [|discriminate].
  intros H. destruct (build_index_spec _ _ H) as [Et Ei]. simpl in Et, Ei.
  now rewrite Et, Ei.
Qed.

End DescriptorProperties.

(* ================================================================= *)
(** ** The orchestrator *)

Section AgentProperties.

Variables Table Row : Type.
Variable self : Collaborators Table Row.

(** [validate_and_execute] contains every failure of the database. *)
Lemma validate_and_execute_returns (sql : str) :
  exists trace s, validate_and_execute self sql = (trace, Ok s).
Proof.
  unfold validate_and_execute, mbind, emit, try_except, call, ret.
  destruct (startswith (strip (lower sql)) (py "delete")
            || startswith (strip (lower sql)) (py "drop"))%bool.
  - now eexists _, _.
  - destruct (run_sql self sql) as [[rows columns]|e].
    + destruct (negb (nonempty rows)); now eexists _, _.
    + now eexists _, _.
Qed.

Lemma validate_and_execute_database_failure (sql : str) (e : exn) :
  run_sql self sql = Raise e ->
  (startswith (strip (lower sql)) (py "delete")
   || startswith (strip (lower sql)) (py "drop"))%bool = false ->
  snd (validate_and_execute self sql) = Ok (py "Error executing SQL query: " ++ exn_str e).
Proof.
  intros Hr Hs. unfold validate_and_execute, mbind, emit, try_except, call, ret.
  now rewrite Hs, Hr.
Qed.

(** Whatever enters [validate_and_execute] was approved by the gate. *)
Lemma execution_only_after_approval (natural_query sql : str) :
  In (CallValidateAndExecute sql) (fst (process_query self natural_query)) ->
  validate_sql_query sql = true.
Proof.
  unfold process_query, mbind, emit, try_except, call, ret.
  destruct (retrieve self natural_query) as [tables|e];
    [|simpl; intuition discriminate].
  destruct (negb (nonempty tables)); [simpl; intuition discriminate|].
  destruct (generate_sql self natural_query tables) as [q|e];
    [|simpl; intuition discriminate].
  unfold validate_and_sanitize_query.
  destruct (validate_sql_query (sanitize_sql_query q)) eqn:Hv;
    [|simpl; intuition discriminate].
  cbn [negb]. unfold validate_and_execute, mbind, emit, try_except, call, ret.
  destruct (startswith _ _ || startswith _ _)%bool.
  - simpl. intros [H|[H|[H|[H|[H|[H|[H|[H|[]]]]]]]]]; try discriminate.
    injection H as <-. exact Hv.
  - destruct (run_sql self (sanitize_sql_query q)) as [[rows columns]|e].
    + destruct (negb (nonempty rows)); simpl;
        intros [H|[H|[H|[H|[H|[H|[H|[H|[H|[]]]]]]]]]]; try discriminate;
        injection H as <-; exact Hv.
    + simpl. intros [H|[H|[H|[H|[H|[H|[H|[H|[H|[]]]]]]]]]]; try discriminate.
      injection H as <-. exact Hv.
Qed.

(** C1: when the safety gate rejects the generated SQL, [process_query]
    returns the message that names this SQL, and the run neither enters
    [validate_and_execute] nor reaches the database. *)
Theorem rejected_sql_is_never_executed (natural_query : str)
    (tables : list Table) (sql : str) :
  retrieve self natural_query = Ok tables ->
  nonempty tables = true ->
  generate_sql self natural_query tables = Ok sql ->
  fst (validate_and_sanitize_query sql) = false ->
  exists trace,
    process_query self natural_query
    = (trace,
       Ok (py "Generated SQL query contains potentially dangerous operations: " ++ sql))
    /\ existsb is_execution trace = false.
Proof.
  intros Hr Hn Hg Hv.
  unfold process_query, mbind, emit, try_except, call, ret.
  rewrite Hr, Hn. cbn [negb]. rewrite Hg.
  destruct (validate_and_sanitize_query sql) as [is_valid sanitized].
  simpl in Hv. subst is_valid. cbn [negb].
  eexists. split; reflexivity.
Qed.

(** C8: [process_query] returns a string on every input, whatever the
    collaborators do; what retrieval or generation raise is rendered as
    ["Error processing query: ..."], and what the database raises on a
    statement that passed both checks is rendered by [validate_and_execute]
    as ["Error executing SQL query: ..."]. *)
Theorem process_query_always_returns (natural_query : str) :
  (exists trace s, process_query self natural_query = (trace, Ok s))
  /\ (forall e,
        retrieve self natural_query = Raise e ->
        snd (process_query self natural_query)
        = Ok (py "Error processing query: " ++ exn_str e))
  /\ (forall tables e,
        retrieve self natural_query = Ok tables ->
        nonempty tables = true ->
        generate_sql self natural_query tables = Raise e ->
        snd (process_query self natural_query)
        = Ok (py "Error processing query: " ++ exn_str e))
  /\ (forall tables sql sanitized e,
        retrieve self natural_query = Ok tables ->
        nonempty tables = true ->
        generate_sql self natural_query tables = Ok sql ->
        validate_and_sanitize_query sql = (true, sanitized) ->
        (startswith (strip (lower sanitized)) (py "delete")
         || startswith (strip (lower sanitized)) (py "drop"))%bool = false ->
        run_sql self sanitized = Raise e ->
        snd (process_query self natural_query)
        = Ok (py "Generated SQL: " ++ sanitized ++ nl ++ nl ++ py "Result:" ++ nl
              ++ py "Error executing SQL query: " ++ exn_str e)).
Proof.
  split; [|split; [|split]].
  - unfold process_query, mbind, emit, try_except, call, ret.
    destruct (retrieve self natural_query) as [tables|e]; [|now eexists _, _].
    destruct (negb (nonempty tables)); [now eexists _, _|].
    destruct (generate_sql self natural_query tables) as [sql|e]; [|now eexists _, _].
    destruct (validate_and_sanitize_query sql) as [is_valid sanitized].
    destruct (negb is_valid); [now eexists _, _|].
    destruct (validate_and_execute_returns sanitized) as (t & s & ->).
    now eexists _, _.
  - intros e Hr. unfold process_query, mbind, emit, try_except, call, ret.
    now rewrite Hr.
  - intros tables e Hr Hn Hg.
    unfold process_query, mbind, emit, try_except, call, ret.
    now rewrite Hr, Hn, Hg.
  - intros tables sql sanitized e Hr Hn Hg Hv Hs He.
    pose proof (validate_and_execute_database_failure sanitized e He Hs) as Hx.
    unfold process_query, mbind, emit, try_except, call, ret.
    rewrite Hr, Hn. cbn [negb]. rewrite Hg, Hv. cbn [negb].
    destruct (validate_and_execute self sanitized) as [t [s|e']];
      simpl in Hx; [|discriminate].
    injection Hx as ->. reflexivity.
Qed.

End AgentProperties.

(* ================================================================= *)
(** ** The properties on the small instance *)

Lemma retrieve_pads_small_index_witness :
  List.length (table_descriptions Example.rag_system) = 1
  /\ exists best,
       Example.retrieve_default Example.rag_system (py "Show all employees")
       = Ok (best ++ repeat {| table_info := Example.employees_description;
                               similarity_score := Example.pad_score |} 2)
       /\ List.length best = 1.
Proof.
  split; [reflexivity|].
  apply (retrieve_pads_small_index Z Example.encode Z Example.inner Z.leb
           Example.pad_score Example.rag_system (py "Show all employees") 3 0%Z
           [] Example.employees_description).
  - reflexivity.
  - reflexivity.
  - vm_compute. lia.
Defined.

(** On the database of [simple_test.py], one table, the default [k = 3]
    gives three results, all of them [employees]. *)
Lemma retrieve_on_one_table :
  exists r,
    Example.retrieve_default Example.rag_system (py "Show all employees") = Ok r
    /\ List.length r = 3
    /\ map (fun t => td_name (table_info t)) r
       = [py "employees"; py "employees"; py "employees"].
Proof. eexists. repeat split; vm_compute; reflexivity. Qed.

(** On a database without tables the build of the index fails, and the
    constructor with it: no system without descriptors comes out of it.  On
    such an object, were it put together by hand, retrieval raises. *)
Lemma constructor_on_no_table :
  RAGSystem_init Example.repr_list Z Example.encode [] None = Raise IndexError_tuple
  /\ Example.retrieve_default {| table_descriptions := []; index := [] |}
       (py "Show all employees")
     = Raise IndexError.
Proof. split; reflexivity. Qed.

(** A threshold above every score changes nothing. *)
Lemma min_score_above_every_score :
  retrieve_relevant_tables Z Example.encode Z Example.inner Z.leb Example.pad_score
    Example.rag_system (py "Show all employees") 1 1000000%Z
  = Ok [{| table_info := Example.employees_description;
           similarity_score := 2880%Z |}].
Proof. reflexivity. Qed.



(** A failed append keeps what it had appended, over the old index: the
    coupling is lost until a later rebuild. *)
Lemma failed_append_uncouples :
  let after := fst (add_custom_table_descriptions Example.repr_list Z Example.encode
                      Example.rag_system [Example.departments; Example.nameless]) in
  List.length (table_descriptions after) = 2 /\ List.length (index after) = 1.
Proof. split; reflexivity. Qed.

Lemma add_custom_appends_and_rebuilds_witness :
  let after := fst (add_custom_table_descriptions Example.repr_list Z Example.encode
                      Example.rag_system [Example.departments]) in
  exists added,
    table_descriptions after = table_descriptions Example.rag_system ++ added
    /\ List.length added = 1
    /\ List.length (table_descriptions after) = 1 + 1
    /\ map_result (custom_description Example.repr_list) [Example.departments] = Ok added
    /\ index after = map Example.encode (map td_text_description (table_descriptions after))
    /\ coupled Z Example.encode after.
Proof.
  intros after.
  apply (add_custom_appends_and_rebuilds Example.repr_list Z Example.encode
           Example.rag_system after [Example.departments]).
  reflexivity.
Defined.

Lemma rejected_sql_is_never_executed_witness :
  fst (validate_and_sanitize_query (py "DROP TABLE employees")) = false
  /\ exists trace,
       process_query (Example.agent Example.rag_system (py "DROP TABLE employees"))
         (py "Show all employees")
       = (trace,
          Ok (py "Generated SQL query contains potentially dangerous operations: "
              ++ py "DROP TABLE employees"))
       /\ existsb is_execution trace = false.
Proof.
  split; [reflexivity|].
  eapply (rejected_sql_is_never_executed _ _
            (Example.agent Example.rag_system (py "DROP TABLE employees"))
            (py "Show all employees")); reflexivity.
Defined.

Lemma process_query_always_returns_witness :
  snd (process_query
         (Example.agent_offline Example.rag_system (py "SELECT 1; DROP TABLE employees"))
         (py "Show all employees"))
  = Ok (py "Generated SQL: " ++ py "SELECT 1" ++ nl ++ nl ++ py "Result:" ++ nl
        ++ py "Error executing SQL query: " ++ py "unable to open database file").
Proof.
  destruct (process_query_always_returns _ _
              (Example.agent_offline Example.rag_system
                 (py "SELECT 1; DROP TABLE employees"))
              (py "Show all employees")) as (_ & _ & _ & H).
  eapply (H _ (py "SELECT 1; DROP TABLE employees") (py "SELECT 1")
            (OtherError (py "unable to open database file"))); reflexivity.
Defined.

(** Scenario C of the specification: the second statement is cut away before
    validation, and the first one runs. *)
Lemma scenario_truncated_statement_runs :
  process_query (Example.agent Example.rag_system (py "SELECT 1; DROP TABLE employees"))
    (py "Show all employees")
  = ([Log Info (py "Processing natural language query: Show all employees");
      Log Debug (py "Retrieving relevant tables using RAG system...");
      CallRetrieve (py "Show all employees");
      Log Debug (py "Found 3 relevant tables");
      Log Debug (py "Generating SQL query using Gemini LLM...");
      CallGenerate (py "Show all employees");
      Log Debug (py "Generated SQL query: SELECT 1; DROP TABLE employees");
      CallValidateAndExecute (py "SELECT 1");
      CallDatabase (py "SELECT 1")],
     Ok (py "Generated SQL: SELECT 1" ++ nl ++ nl ++ py "Result:" ++ nl
         ++ py "Columns: 1" ++ nl ++ repeat "-"%char 50 ++ nl ++ py "(1,)" ++ nl)).
Proof. reflexivity. Qed.

(* ================================================================= *)
(** ** Further properties of the safety gate *)

(** A cut text holds no terminator before its last character. *)
Lemma cut_has_no_inner_terminator (s : str) :
  str_in semicolon (but_last (strip (before_first ";" s))) = false.
Proof.
  unfold semicolon. apply str_in_char_false. intros H. apply in_but_last in H.
  now apply (proj2 (cut_is_clean s)).
Qed.

(** X1: whatever the input, the sanitised text holds no statement terminator
    before its last character: a second statement never survives. *)
Theorem sanitize_leaves_no_inner_terminator (q : str) :
  str_in semicolon (but_last (sanitize_sql_query q)) = false.
Proof.
  rewrite sanitize_unfold.
  destruct (str_in semicolon (but_last (without_trailing_terminator q))) eqn:E.
  - apply cut_has_no_inner_terminator.
  - exact E.
Qed.

Lemma startswith_true_app (s p : str) :
  startswith s p = true -> exists rest, s = p ++ rest.
Proof.
  revert s. induction p as [|a p IH]; intros s H; simpl in *.
  - now exists s.
  - destruct s as [|b s]; [discriminate|].
    apply Bool.andb_true_iff in H. destruct H as [E H].
    apply Ascii.eqb_eq in E. subst b. destruct (IH s H) as (rest & ->).
    now exists rest.
Qed.

(** Where the search succeeds, the literal stands between two positions
    outside a word. *)
Lemma search_found_somewhere (kw : str) :
  kw <> [] -> forallb is_word kw = true ->
  forall (text : str) (prev : option ascii),
    search_from prev kw text = true ->
    exists pre post,
      text = pre ++ kw ++ post
      /\ is_word_opt (last_char prev pre) = false
      /\ is_word_opt (hd_error post) = false.
Proof.
  intros Hne Hw.
  assert (Hm : forall text prev, match_here prev kw text = true ->
                 exists post, text = kw ++ post
                   /\ is_word_opt prev = false /\ is_word_opt (hd_error post) = false).
  { intros text prev H. unfold match_here in H.
    apply Bool.andb_true_iff in H. destruct H as [H H3].
    apply Bool.andb_true_iff in H. destruct H as [H1 H2].
    destruct (startswith_true_app _ _ H2) as (post & ->). exists post.
    rewrite skipn_length_app in H3. unfold boundary in *.
    rewrite (last_char_word prev kw Hne Hw) in H3.
    destruct kw as [|k kw']; [congruence|]. simpl in H1, Hw.
    apply Bool.andb_true_iff in Hw. destruct Hw as [Hk _]. rewrite Hk in H1.
    split; [reflexivity|]. split.
    - now destruct (is_word_opt prev).
    - now destruct (is_word_opt (hd_error post)). }
  induction text as [|c text IH]; intros prev H; simpl in H.
  - rewrite Bool.orb_false_r in H. destruct (Hm _ _ H) as (post & E & Hp & Hq).
    exists [], post. now repeat split.
  - apply Bool.orb_true_iff in H. destruct H as [H|H].
    + destruct (Hm _ _ H) as (post & E & Hp & Hq). exists [], post. now repeat split.
    + destruct (IH _ H) as (pre & post & -> & Hp & Hq).
      exists (c :: pre), post. repeat split; [|exact Hq].
      now rewrite last_char_cons.
Qed.

Lemma no_keyword_false (keywords : list str) (text : str) :
  no_keyword keywords text = false ->
  exists kw, In kw keywords /\ re_search_word kw text = true.
Proof.
  induction keywords as [|k ks IH]; simpl; [discriminate|].
  destruct (re_search_word k text) eqn:E.
  - intros _. exists k. split; [now left | exact E].
  - intros H. destruct (IH H) as (kw & Hin & Hs). exists kw. split; [now right | exact Hs].
Qed.

Lemma validate_false_has_keyword (q : str) :
  validate_sql_query q = false ->
  exists kw pre post,
    In kw dangerous_keywords
    /\ strip (lower q) = pre ++ kw ++ post
    /\ ends_outside_word pre = true
    /\ starts_outside_word post = true.
Proof.
  pose proof dangerous_keywords_are_words as Hall. rewrite Forall_forall in Hall.
  unfold validate_sql_query. intros H.
  destruct (no_keyword_false _ _ H) as (kw & Hin & Hs).
  destruct (Hall kw Hin) as [Hne Hw].
  destruct (search_found_somewhere kw Hne Hw _ _ Hs) as (pre & post & E & Hp & Hq).
  exists kw, pre, post. unfold ends_outside_word, starts_outside_word.
  now rewrite Hp, Hq.
Qed.

(** X2: [validate_sql_query] rejects a query exactly when its lower-cased,
    trimmed text holds one of the thirteen keywords between the ends of the
    text or characters outside [\w]. *)
Theorem validate_rejects_exactly_keywords (q : str) :
  validate_sql_query q = false <->
  exists kw pre post,
    In kw dangerous_keywords
    /\ strip (lower q) = pre ++ kw ++ post
    /\ ends_outside_word pre = true
    /\ starts_outside_word post = true.
Proof.
  split; [apply validate_false_has_keyword|].
  intros (kw & pre & post & Hin & E & Hp & Hq).
  pose proof dangerous_keywords_are_words as Hall. rewrite Forall_forall in Hall.
  destruct (Hall kw Hin) as [Hne Hw]. unfold validate_sql_query.
  rewrite E. apply no_keyword_found with (kw := kw); [exact Hin|].
  apply search_finds; try assumption.
  - now apply Bool.negb_true_iff in Hq.
  - now apply Bool.negb_true_iff in Hp.
Qed.

Lemma lower_char_idempotent (c : ascii) : lower_char (lower_char c) = lower_char c.
Proof. each_char c. Qed.

Lemma is_space_lower_char (c : ascii) : is_space (lower_char c) = is_space c.
Proof. each_char c. Qed.

Lemma lower_idempotent (s : str) : lower (lower s) = lower s.
Proof.
  unfold lower. rewrite map_map. apply map_ext. apply lower_char_idempotent.
Qed.

Lemma lstrip_lower (s : str) : lstrip (lower s) = lower (lstrip s).
Proof.
  induction s as [|c t IH]; simpl; [reflexivity|].
  rewrite is_space_lower_char. now destruct (is_space c).
Qed.

Lemma strip_lower (s : str) : strip (lower s) = lower (strip s).
Proof.
  unfold strip, rstrip, lower. rewrite lstrip_lower. unfold lower.
  rewrite <- map_rev, lstrip_lower. unfold lower. now rewrite map_rev.
Qed.

(** X3: the verdict of [validate_sql_query] depends neither on the letter
    case of the query nor on white space around it. *)
Theorem validate_ignores_case_and_margins (q : str) :
  validate_sql_query (lower q) = validate_sql_query q
  /\ validate_sql_query (strip q) = validate_sql_query q.
Proof.
  unfold validate_sql_query. split.
  - now rewrite lower_idempotent.
  - now rewrite <- strip_lower, strip_idempotent.
Qed.

Lemma all_word_trimmed (s : str) : forallb is_word s = true -> trimmed s.
Proof.
  intros H. rewrite forallb_forall in H. split.
  - destruct s as [|c t]; [exact I|]. apply is_word_not_space, H. now left.
  - destruct (rev s) as [|c t] eqn:E; [exact I|].
    apply is_word_not_space, H, in_rev. rewrite E. now left.
Qed.

(** X4: a query whose lower-cased text is one word, made of [\w] characters
    only, is rejected only if that word is a keyword: a keyword inside a
    longer name ([dropped], [created_at]) is not found.  The condition is put
    on the lower-cased text, which is the text that is searched.  For a query
    of code points 0..255 it is the condition on the query itself (lemma
    [is_word_lower_char]); beyond them it is not: U+0130 is a [\w] character
    and lowers to [i] followed by a combining dot, which is not one. *)
Theorem validate_accepts_other_words (q : str) :
  forallb is_word (lower q) = true ->
  ~ In (lower q) dangerous_keywords ->
  validate_sql_query q = true.
Proof.
  intros Hl Hn. destruct (validate_sql_query q) eqn:E; [reflexivity|]. exfalso.
  apply validate_false_has_keyword in E.
  destruct E as (kw & pre & post & Hin & E & Hp & Hq).
  rewrite (strip_fixed _ (all_word_trimmed _ Hl)) in E. rewrite E in Hl.
  rewrite !forallb_app in Hl. apply Bool.andb_true_iff in Hl.
  destruct Hl as [Hpre Hl]. apply Bool.andb_true_iff in Hl. destruct Hl as [_ Hpost].
  assert (pre = []).
  { destruct (snoc_cases pre) as [->|(p & x & ->)]; [reflexivity|]. exfalso.
    unfold ends_outside_word, last_char in Hp. rewrite rev_app_distr in Hp.
    simpl in Hp. rewrite forallb_app in Hpre. apply Bool.andb_true_iff in Hpre.
    destruct Hpre as [_ Hx]. simpl in Hx. rewrite Bool.andb_true_r in Hx.
    rewrite Hx in Hp. discriminate. }
  assert (post = []).
  { destruct post as [|x post]; [reflexivity|]. exfalso.
    unfold starts_outside_word in Hq. simpl in Hq, Hpost.
    apply Bool.andb_true_iff in Hpost. destruct Hpost as [Hx _].
    rewrite Hx in Hq. discriminate. }
  subst. simpl in E. rewrite app_nil_r in E. apply Hn. now rewrite E.
Qed.

Lemma validate_accepts_other_words_witness :
  validate_sql_query (py "Created_At") = true.
Proof.
  apply (validate_accepts_other_words (py "Created_At")); [reflexivity|].
  vm_compute. intuition discriminate.
Defined.

(* ================================================================= *)
(** ** Further properties of retrieval *)

Section RetrievalMore.

Variable Vec : Type.
Variable encode : str -> Vec.
Variable Score : Type.
Variable inner : Vec -> Vec -> Score.
Variable score_leb : Score -> Score -> bool.
Variable pad_score : Score.

Local Abbreviation nearest := (nearest Vec Score inner score_leb pad_score).
Local Abbreviation collect := (collect Score).
Local Abbreviation retrieve_relevant_tables :=
  (retrieve_relevant_tables Vec encode Score inner score_leb pad_score).

Lemma py_index_in {A} (l : list A) (idx : Z) (a : A) :
  py_index l idx = Ok a -> In a l.
Proof.
  unfold py_index.
  destruct (_ <? 0)%Z; [discriminate|].
  destruct (nth_error l _) as [x|] eqn:E; [|discriminate].
  intros H. injection H as <-. now apply nth_error_In in E.
Qed.

Lemma collect_members tds found r :
  collect tds found = Ok r -> Forall (fun t => In (table_info t) tds) r.
Proof.
  revert r. induction found as [|[s idx] found IH]; intros r H; simpl in *.
  - injection H as <-. constructor.
  - destruct (idx <? Z.of_nat (List.length tds))%Z; [|now apply IH].
    destruct (py_index tds idx) as [t|e] eqn:E; simpl in *; [|discriminate].
    destruct (collect tds found) as [r'|e]; simpl in *; [|discriminate].
    injection H as <-. constructor; [|now apply IH].
    simpl. now apply py_index_in in E.
Qed.

Lemma retrieve_members (self : RAGSystem Vec) (query : str) (k : nat)
    (min_score : Score) (r : list (RelevantTable Score)) :
  retrieve_relevant_tables self query k min_score = Ok r ->
  Forall (fun t => In (table_info t) (table_descriptions self)) r.
Proof.
  intros H. destruct k as [|k]; [discriminate|].
  rewrite (retrieve_positive Vec encode Score inner score_leb pad_score) in H
    by lia.
  now apply collect_members in H.
Qed.

(** X5: what [retrieve_relevant_tables] returns are at most [k] results, and
    each of them carries a descriptor of the system's descriptor list. *)
Theorem retrieve_returns_known_descriptors (self : RAGSystem Vec) (query : str)
    (k : nat) (min_score : Score) (r : list (RelevantTable Score)) :
  retrieve_relevant_tables self query k min_score = Ok r ->
  List.length r <= k
  /\ Forall (fun t => In (table_info t) (table_descriptions self)) r.
Proof.
  intros H. split.
  - exact (retrieve_at_most_k Vec encode Score inner score_leb pad_score
             self query k min_score r H).
  - now apply retrieve_members in H.
Qed.

Lemma collect_servable tds last found :
  Forall (servable (List.length (tds ++ [last]))) found ->
  exists r, collect (tds ++ [last]) found = Ok r
            /\ List.length r = List.length found.
Proof.
  induction 1 as [|[s idx] found Hx Hf (r & Er & Lr)]; simpl.
  - now exists [].
  - unfold servable in Hx. simpl in Hx.
    destruct (Z.ltb_spec idx (Z.of_nat (List.length (tds ++ [last])))); [|lia].
    assert (Hi : exists t, py_index (tds ++ [last]) idx = Ok t).
    { destruct (Z.eq_dec idx (-1)) as [->|Hne].
      - exists last. apply py_index_minus_one.
      - destruct (py_index_slot (tds ++ [last]) idx) as (t & Et & _); [lia|].
        now exists t. }
    destruct Hi as (t & Et). rewrite Et, Er. simpl.
    eexists. split; [reflexivity|]. simpl. now rewrite Lr.
Qed.

Lemma nearest_servable index q k n :
  List.length index <= n -> 0 < n ->
  Forall (servable n) (nearest index q k).
Proof.
  intros Hn Hp.
  destruct (nearest_shape Vec Score inner score_leb pad_score index q k)
    as (best & -> & _ & Fb).
  apply Forall_app. split.
  - eapply Forall_impl; [|exact Fb]. intros p Hs. unfold slot_of in Hs.
    unfold servable. lia.
  - apply Forall_forall. intros p Hin. apply repeat_spec in Hin. subst p.
    unfold servable. simpl. lia.
Qed.

(** X6: on a system with at least one descriptor, and an index no longer than
    the descriptor list, [retrieve_relevant_tables] does not raise and
    returns exactly [k] results, for every [k >= 1]: also when [k] exceeds
    the number of descriptors.  (With [k = 0] the search fails its
    assertion, lemma [retrieve_zero].) *)
Theorem retrieve_returns_exactly_k (self : RAGSystem Vec) (query : str)
    (k : nat) (min_score : Score) :
  0 < k ->
  table_descriptions self <> [] ->
  List.length (index self) <= List.length (table_descriptions self) ->
  exists r,
    retrieve_relevant_tables self query k min_score = Ok r
    /\ List.length r = k.
Proof.
  intros Hk Hne Hl.
  rewrite (retrieve_positive Vec encode Score inner score_leb pad_score) by exact Hk.
  destruct (snoc_cases (table_descriptions self)) as [E|(tds & last & E)];
    [congruence|].
  rewrite E in *.
  destruct (collect_servable tds last (nearest (index self) (encode query) k))
    as (r & Er & Lr).
  - apply nearest_servable; [exact Hl|]. rewrite length_app. simpl. lia.
  - exists r. split; [exact Er|].
    now rewrite Lr, (nearest_length Vec Score inner score_leb pad_score).
Qed.

(** X7: on a system without descriptors, [retrieve_relevant_tables] raises
    [IndexError] for every [k >= 1]: the padding label [-1] passes the guard
    and indexes the empty list. *)
Theorem retrieve_without_descriptors_raises (self : RAGSystem Vec)
    (query : str) (k : nat) (min_score : Score) :
  table_descriptions self = [] -> index self = [] -> 0 < k ->
  retrieve_relevant_tables self query k min_score = Raise IndexError.
Proof.
  intros Et Ei Hk. destruct k as [|k]; [lia|].
  now apply retrieve_on_empty_raises.
Qed.

End RetrievalMore.

Lemma retrieve_returns_known_descriptors_witness :
  exists r,
    Example.retrieve_default Example.rag_system (py "salary") = Ok r
    /\ List.length r <= 3
    /\ Forall (fun t => In (table_info t) (table_descriptions Example.rag_system)) r.
Proof.
  eexists. split; [vm_compute; reflexivity|].
  apply (retrieve_returns_known_descriptors Z Example.encode Z Example.inner Z.leb
           Example.pad_score Example.rag_system (py "salary") 3 0%Z).
  vm_compute. reflexivity.
Defined.

Lemma retrieve_returns_exactly_k_witness :
  exists r,
    Example.retrieve_default Example.rag_system (py "salary") = Ok r
    /\ List.length r = 3.
Proof.
  apply (retrieve_returns_exactly_k Z Example.encode Z Example.inner Z.leb
           Example.pad_score Example.rag_system (py "salary") 3 0%Z).
  - lia.
  - vm_compute. discriminate.
  - vm_compute. lia.
Defined.

Lemma retrieve_without_descriptors_raises_witness :
  Example.retrieve_default {| table_descriptions := []; index := [] |} (py "salary")
  = Raise IndexError.
Proof.
  apply (retrieve_without_descriptors_raises Z Example.encode Z Example.inner Z.leb
           Example.pad_score {| table_descriptions := []; index := [] |}
           (py "salary") 3 0%Z); [reflexivity | reflexivity | lia].
Defined.

(* ================================================================= *)
(** ** Further properties of descriptor building *)

Section DescriptorMore.

Variable repr_list : list str -> str.

Lemma columns_text_succeeds (columns : list ColumnInfo) :
  (exists t, columns_text columns = Ok t) <-> forallb complete_column columns = true.
Proof.
  induction columns as [|col rest IH]; simpl.
  - split; [reflexivity | now exists []].
  - unfold complete_column at 1.
    destruct (col_name col) as [n|]; [|simpl; split; [intros (t & H) | ]; discriminate].
    destruct (col_type col) as [ty|]; [|simpl; split; [intros (t & H) | ]; discriminate].
    simpl. rewrite <- IH.
    destruct (columns_text rest) as [more|e]; simpl.
    + split; intros _; eexists; reflexivity.
    + split; intros (t & H); discriminate.
Qed.

Lemma foreign_keys_text_succeeds (fks : list ForeignKey) :
  (exists t, foreign_keys_text repr_list fks = Ok t)
  <-> forallb complete_foreign_key fks = true.
Proof.
  induction fks as [|fk rest IH]; simpl.
  - split; [reflexivity | now exists []].
  - unfold complete_foreign_key at 1.
    destruct (fk_constrained_columns fk) as [cc|];
      [|simpl; split; [intros (t & H) | ]; discriminate].
    destruct (fk_referred_table fk) as [rt|];
      [|simpl; split; [intros (t & H) | ]; discriminate].
    destruct (fk_referred_columns fk) as [rc|];
      [|simpl; split; [intros (t & H) | ]; discriminate].
    simpl. rewrite <- IH.
    destruct (foreign_keys_text repr_list rest) as [more|e]; simpl.
    + split; intros _; eexists; reflexivity.
    + split; intros (t & H); discriminate.
Qed.

Lemma columns_part_succeeds (columns : list ColumnInfo) :
  (exists t, columns_part columns = Ok t) <-> forallb complete_column columns = true.
Proof.
  rewrite <- columns_text_succeeds. unfold columns_part.
  destruct columns as [|c cs]; [split; intros _; now eexists|].
  cbn [nonempty]. destruct (columns_text (c :: cs)) as [t|e]; simpl.
  - split; intros _; eexists; reflexivity.
  - split; intros (t & H); discriminate.
Qed.

Lemma foreign_keys_part_succeeds (fks : list ForeignKey) :
  (exists t, foreign_keys_part repr_list fks = Ok t)
  <-> forallb complete_foreign_key fks = true.
Proof.
  rewrite <- foreign_keys_text_succeeds. unfold foreign_keys_part.
  destruct fks as [|c cs]; [split; intros _; now eexists|].
  cbn [nonempty]. destruct (foreign_keys_text repr_list (c :: cs)) as [t|e]; simpl.
  - split; intros _; eexists; reflexivity.
  - split; intros (t & H); discriminate.
Qed.

Lemma custom_description_spec (c : CustomTable) :
  ((exists d, custom_description repr_list c = Ok d) <-> well_formed_custom c = true)
  /\ (forall d, custom_description repr_list c = Ok d ->
        Some (td_name d) = ct_name c
        /\ td_columns d = get (ct_columns c) []
        /\ td_primary_keys d = get (ct_primary_keys c) []
        /\ td_foreign_keys d = get (ct_foreign_keys c) []
        /\ td_is_custom d = true
        /\ complete d = true).
Proof.
  unfold custom_description, well_formed_custom, complete.
  destruct (ct_name c) as [n|]; simpl.
  2:{ split; [split; [intros (d & H) | ]; discriminate | discriminate]. }
  pose proof (columns_part_succeeds (get (ct_columns c) [])) as Hc.
  pose proof (foreign_keys_part_succeeds (get (ct_foreign_keys c) [])) as Hf.
  destruct (columns_part (get (ct_columns c) [])) as [cols|e]; simpl.
  2:{ assert (E : forallb complete_column (get (ct_columns c) []) = false).
      { destruct (forallb complete_column _); [|reflexivity].
        destruct (proj2 Hc eq_refl) as (t & H). discriminate. }
      rewrite E. simpl.
      split; [split; [intros (d & H) | ]; discriminate | discriminate]. }
  rewrite (proj1 Hc (ex_intro _ cols eq_refl)). simpl.
  destruct (foreign_keys_part repr_list (get (ct_foreign_keys c) [])) as [fks|e]; simpl.
  2:{ assert (E : forallb complete_foreign_key (get (ct_foreign_keys c) []) = false).
      { destruct (forallb complete_foreign_key _); [|reflexivity].
        destruct (proj2 Hf eq_refl) as (t & H). discriminate. }
      rewrite E.
      split; [split; [intros (d & H) | ]; discriminate | discriminate]. }
  rewrite (proj1 Hf (ex_intro _ fks eq_refl)). split.
  - split; intros _; [reflexivity | eexists; reflexivity].
  - intros d H. injection H as <-. simpl.
    rewrite (proj1 Hc (ex_intro _ cols eq_refl)),
            (proj1 Hf (ex_intro _ fks eq_refl)).
    now repeat split.
Qed.


Lemma custom_description_complete (c : CustomTable) (d : TableDescription) :
  custom_description repr_list c = Ok d -> complete d = true.
Proof. intros H. now apply (proj2 (custom_description_spec c)) in H. Qed.

Lemma col_info_complete fks col col' :
  col_info fks col = Ok col' -> complete_column col' = true.
Proof.
  unfold col_info. destruct (col_name col) as [n|]; [|discriminate].
  destruct (col_type col) as [t|]; [|discriminate]. simpl.
  destruct (any_constrains n fks) as [b|e]; [|discriminate]. simpl.
  intros H. now injection H as <-.
Qed.

Lemma map_result_forallb {A B} (f : A -> result B) (p : B -> bool) (l : list A)
    (bs : list B) :
  (forall a b, f a = Ok b -> p b = true) ->
  map_result f l = Ok bs -> forallb p bs = true.
Proof.
  intros Hf. revert bs. induction l as [|x l IH]; intros bs H; simpl in *.
  - now injection H as <-.
  - destruct (f x) as [b|e] eqn:E; simpl in *; [|discriminate].
    destruct (map_result f l) as [bs'|e]; simpl in *; [|discriminate].
    injection H as <-. simpl. now rewrite (Hf _ _ E), (IH bs' eq_refl).
Qed.

Lemma inspected_description_complete (t : InspectedTable) (d : TableDescription) :
  inspected_description repr_list t = Ok d ->
  complete d = true /\ td_is_custom d = false.
Proof.
  unfold inspected_description.
  destruct (primary_key_names (it_columns t)) as [pks|e]; [|discriminate]. simpl.
  destruct (map_result (col_info (it_foreign_keys t)) (it_columns t))
    as [cols|e] eqn:Ec; [|discriminate]. simpl.
  destruct (columns_part (it_columns t)) as [ct|e]; [|discriminate]. simpl.
  pose proof (foreign_keys_part_succeeds (it_foreign_keys t)) as Hf.
  destruct (foreign_keys_part repr_list (it_foreign_keys t)) as [ft|e];
    [|discriminate]. simpl.
  intros H. injection H as <-. unfold complete. simpl.
  rewrite (map_result_forallb _ complete_column _ _
             (col_info_complete (it_foreign_keys t)) Ec).
  now rewrite (proj1 Hf (ex_intro _ ft eq_refl)).
Qed.

Variable Vec : Type.
Variable encode : str -> Vec.

Local Abbreviation add_custom_table_descriptions :=
  (add_custom_table_descriptions repr_list Vec encode).
Local Abbreviation RAGSystem_init := (RAGSystem_init repr_list Vec encode).
Local Abbreviation coupled := (coupled Vec encode).

(** X9: when the constructor returns, the descriptor list holds one
    descriptor per table of the database, in the inspector's order and not
    marked custom, followed by one per custom entry, in the given order and
    marked custom; and the index is coupled to it. *)
Theorem constructor_builds_live_then_custom (inspected : list InspectedTable)
    (customs : option (list CustomTable)) (self : RAGSystem Vec) :
  RAGSystem_init inspected customs = Ok self ->
  exists live built,
    table_descriptions self = live ++ built
    /\ map_result (inspected_description repr_list) inspected = Ok live
    /\ map_result (custom_description repr_list) (get customs []) = Ok built
    /\ List.length live = List.length inspected
    /\ List.length built = List.length (get customs [])
    /\ forallb (fun d => negb (td_is_custom d)) live = true
    /\ forallb td_is_custom built = true
    /\ coupled self.
Proof.
  intros H. pose proof (RAGSystem_init_coupled _ _ _ _ _ _ H) as Hc.
  apply RAGSystem_init_spec in H. destruct H as [H _].
  unfold _get_table_descriptions in H.
  destruct (map_result (inspected_description repr_list) inspected) as [live|e] eqn:El;
    [|discriminate].
  assert (Hl : forallb (fun d => negb (td_is_custom d)) live = true).
  { apply (map_result_forallb _ _ _ _ (fun a b Hab =>
       f_equal negb (proj2 (inspected_description_complete a b Hab))) El). }
  pose proof (map_result_length _ _ _ El) as Ll.
  assert (Hb : forall cs built,
             map_result (custom_description repr_list) cs = Ok built ->
             forallb td_is_custom built = true).
  { intros cs built. apply map_result_forallb. intros a b Hab.
    now apply (proj2 (custom_description_spec a)) in Hab. }
  assert (Hnil : forall self0 : RAGSystem Vec,
             coupled self0 -> table_descriptions self0 = live ->
             exists live0 built,
               table_descriptions self0 = live0 ++ built
               /\ Ok live = Ok live0
               /\ Ok [] = Ok built
               /\ List.length live0 = List.length inspected
               /\ List.length built = 0
               /\ forallb (fun d => negb (td_is_custom d)) live0 = true
               /\ forallb td_is_custom built = true
               /\ coupled self0).
  { intros self0 Hc0 E0. exists live, []. rewrite app_nil_r.
    split; [exact E0|]. split; [reflexivity|]. split; [reflexivity|].
    split; [exact Ll|]. split; [reflexivity|]. split; [exact Hl|].
    split; [reflexivity | exact Hc0]. }
  destruct customs as [[|c cs]|]; cbn [get map_result List.length].
  - apply Hnil; [exact Hc|]. simpl in H. now injection H as <-.
  - change (map_result (custom_description repr_list) (c :: cs))
      with (map_result (custom_description repr_list) (get (Some (c :: cs)) [])) in H.
    cbn [get] in H.
    destruct (map_result (custom_description repr_list) (c :: cs)) as [built|e] eqn:Eb;
      [|discriminate].
    simpl in H. injection H as E. exists live, built.
    pose proof (map_result_length _ _ _ Eb) as Lb.
    split; [now rewrite <- E|]. split; [reflexivity|]. split; [exact Eb|].
    split; [exact Ll|]. split; [exact Lb|]. split; [exact Hl|].
    split; [now apply (Hb (c :: cs)) | exact Hc].
  - apply Hnil; [exact Hc|]. simpl in H. now injection H as <-.
Qed.


(** X10: when [add_custom_table_descriptions] fails at an entry, the
    descriptors of the entries before it stay appended and the index is the
    old one; if there was such an entry, index and descriptor list are no
    longer coupled. *)
Theorem failed_append_keeps_partial_list (self : RAGSystem Vec)
    (good rest : list CustomTable) (ds : list TableDescription)
    (c : CustomTable) (e : exn) :
  map_result (custom_description repr_list) good = Ok ds ->
  custom_description repr_list c = Raise e ->
  add_custom_table_descriptions self (good ++ c :: rest)
  = ({| table_descriptions := table_descriptions self ++ ds; index := index self |},
     Raise e)
  /\ (coupled self -> good <> [] ->
      ~ coupled (fst (add_custom_table_descriptions self (good ++ c :: rest)))).
Proof.
  intros Hg Hc.
  assert (E : add_custom_table_descriptions self (good ++ c :: rest)
              = ({| table_descriptions := table_descriptions self ++ ds;
                    index := index self |}, Raise e)).
  { unfold add_custom_table_descriptions.
    now rewrite (append_customs_first_failure repr_list good rest ds c e Hg Hc). }
  split; [exact E|]. rewrite E. simpl. intros [Hl _] Hne [Hl' _]. simpl in Hl'.
  rewrite length_app in Hl'. apply map_result_length in Hg.
  destruct good; [congruence|]. simpl in Hg. lia.
Qed.

(** X11: every descriptor of a constructed system is complete, and
    [add_custom_table_descriptions] keeps it so, whether it returns or
    raises. *)
Theorem descriptors_stay_complete :
  (forall inspected customs (self : RAGSystem Vec),
      RAGSystem_init inspected customs = Ok self ->
      forallb complete (table_descriptions self) = true)
  /\ (forall (self : RAGSystem Vec) new,
        forallb complete (table_descriptions self) = true ->
        forallb complete
          (table_descriptions (fst (add_custom_table_descriptions self new))) = true).
Proof.
  split.
  - intros inspected customs self H.
    apply RAGSystem_init_spec in H. destruct H as [E _].
    revert E. generalize (table_descriptions self) as tds. intros tds E.
    unfold _get_table_descriptions in E.
    destruct (map_result (inspected_description repr_list) inspected) as [live|e] eqn:El;
      [|discriminate].
    pose proof (map_result_forallb _ complete _ _
                  (fun a b Hab => proj1 (inspected_description_complete a b Hab)) El)
      as Hl.
    unfold bind in E. destruct customs as [[|c cs]|]; try (now injection E as <-).
    destruct (map_result (custom_description repr_list) (c :: cs)) as [built|e] eqn:Eb;
      [|discriminate].
    injection E as <-. rewrite forallb_app, Hl.
    now rewrite (map_result_forallb _ complete _ _ custom_description_complete Eb).
  - intros self new.
    unfold add_custom_table_descriptions.
    generalize (table_descriptions self) as tds.
    assert (Ha : forall new tds, forallb complete tds = true ->
                 forallb complete (fst (append_customs repr_list tds new)) = true).
    { induction new0 as [|c cs IH]; intros tds Ht; simpl; [exact Ht|].
      destruct (custom_description repr_list c) as [d|e] eqn:Ec; [|exact Ht].
      apply IH. rewrite forallb_app, Ht. simpl.
      now rewrite (custom_description_complete c d Ec). }
    intros tds Ht. specialize (Ha new tds Ht).
    destruct (append_customs repr_list tds new) as [tds' [u|e]]; [|exact Ha].
    destruct (_build_index Vec encode {| table_descriptions := tds'; index := index self |})
      as [rebuilt|e] eqn:Eb; [|exact Ha].
    apply build_index_spec in Eb. destruct Eb as [Et _]. simpl. now rewrite Et.
Qed.

End DescriptorMore.

(* ================================================================= *)
(** ** The generation client: [_extract_sql_query] *)

Lemma startswith_app_prefix (x a b : str) :
  startswith x (a ++ b) = true -> startswith x a = true.
Proof.
  revert x. induction a as [|c a IH]; intros x H; simpl in *; [apply startswith_nil|].
  destruct x as [|d x]; [discriminate|]. simpl in *.
  apply Bool.andb_true_iff in H. destruct H as [E H].
  now rewrite E, (IH x H).
Qed.

Lemma str_in_nil (n : str) : str_in n [] = (startswith [] n || false)%bool.
Proof. reflexivity. Qed.

Lemma str_in_cons (n : str) (c : ascii) (t : str) :
  str_in n (c :: t) = (startswith (c :: t) n || str_in n t)%bool.
Proof. reflexivity. Qed.

Lemma str_in_prefix (a b x : str) :
  str_in (a ++ b) x = true -> str_in a x = true.
Proof.
  induction x as [|d x IH]; intros H.
  - rewrite str_in_nil, Bool.orb_false_r in *. now apply startswith_app_prefix in H.
  - rewrite str_in_cons in *. apply Bool.orb_true_iff in H. destruct H as [H|H].
    + apply startswith_app_prefix in H. now rewrite H.
    + rewrite (IH H). apply Bool.orb_true_r.
Qed.

Lemma str_in_middle (sub a b : str) : str_in sub (a ++ sub ++ b) = true.
Proof.
  induction a as [|c a IH].
  - simpl app. destruct (sub ++ b) eqn:E.
    + rewrite str_in_nil, <- E, startswith_app. reflexivity.
    + rewrite str_in_cons, <- E, startswith_app. reflexivity.
  - simpl app. rewrite str_in_cons, IH. apply Bool.orb_true_r.
Qed.

(** Where the first character of [sub] does not occur in [a], the first
    occurrence of [sub] in [a ++ sub ++ b] is right after [a]. *)
Lemma find_at_eq (sub s : str) (pos : nat) :
  find_at sub s pos
  = if startswith s sub then Z.of_nat pos
    else match s with
         | [] => (-1)%Z
         | _ :: t => find_at sub t (S pos)
         end.
Proof. destruct s; reflexivity. Qed.

Lemma find_at_after (h : ascii) (sub a b : str) (pos : nat) :
  ~ In h a ->
  find_at (h :: sub) (a ++ (h :: sub) ++ b) pos = Z.of_nat (pos + List.length a).
Proof.
  revert pos. induction a as [|c a IH]; intros pos Hn.
  - rewrite find_at_eq. change ([] ++ (h :: sub) ++ b) with ((h :: sub) ++ b).
    rewrite startswith_app. simpl. f_equal. lia.
  - rewrite find_at_eq. change ((c :: a) ++ (h :: sub) ++ b)
      with (c :: (a ++ (h :: sub) ++ b)).
    assert (E : startswith (c :: a ++ (h :: sub) ++ b) (h :: sub) = false).
    { simpl. destruct (Ascii.eqb_spec h c) as [->|Hne]; [|reflexivity].
      exfalso. apply Hn. now left. }
    rewrite E, IH by (intros H; apply Hn; now right). f_equal. simpl. lia.
Qed.

Lemma find_at_absent (h : ascii) (sub s : str) (pos : nat) :
  ~ In h s -> find_at (h :: sub) s pos = (-1)%Z.
Proof.
  revert pos. induction s as [|c s IH]; intros pos Hn; [reflexivity|].
  rewrite find_at_eq.
  assert (E : startswith (c :: s) (h :: sub) = false).
  { simpl. destruct (Ascii.eqb_spec h c) as [->|Hne]; [|reflexivity].
    exfalso. apply Hn. now left. }
  rewrite E. apply IH. intros H. apply Hn. now right.
Qed.

Lemma find_from (s sub : str) (n : nat) :
  n <= List.length s ->
  find s sub (Z.of_nat n) = find_at sub (skipn n s) n.
Proof.
  intros H. unfold find, len.
  destruct (Z.ltb_spec (Z.of_nat n) 0); [lia|].
  destruct (Z.ltb_spec (Z.of_nat (List.length s)) (Z.of_nat n)); [lia|].
  now rewrite Nat2Z.id.
Qed.

Lemma skipn_app_exact {A} (a b : list A) : skipn (List.length a) (a ++ b) = b.
Proof. induction a; simpl; auto. Qed.

Lemma firstn_app_exact {A} (a b : list A) : firstn (List.length a) (a ++ b) = a.
Proof. induction a; simpl; [|f_equal]; auto. Qed.

(** Finding [h :: sub] from the end of a prefix [A]. *)
Lemma find_past (h : ascii) (sub A a b : str) :
  ~ In h a ->
  find (A ++ a ++ (h :: sub) ++ b) (h :: sub) (Z.of_nat (List.length A))
  = Z.of_nat (List.length A + List.length a).
Proof.
  intros Hn. rewrite find_from by (rewrite length_app; lia).
  rewrite skipn_app_exact. now apply find_at_after.
Qed.

Lemma find_past_absent (h : ascii) (sub A a : str) :
  ~ In h a ->
  find (A ++ a) (h :: sub) (Z.of_nat (List.length A)) = (-1)%Z.
Proof.
  intros Hn. rewrite find_from by (rewrite length_app; lia).
  rewrite skipn_app_exact. now apply find_at_absent.
Qed.

Lemma clamp_nat (s : str) (n : nat) : clamp s (Z.of_nat n) = Nat.min n (List.length s).
Proof. unfold clamp, len. destruct (Z.ltb_spec (Z.of_nat n) 0); lia. Qed.

Lemma slice_middle (A m B : str) :
  slice (A ++ m ++ B) (Z.of_nat (List.length A))
        (Z.of_nat (List.length A + List.length m)) = m.
Proof.
  unfold slice. rewrite !clamp_nat, !length_app.
  replace (Nat.min (List.length A) _) with (List.length A) by lia.
  replace (Nat.min (List.length A + List.length m) _ - List.length A)
    with (List.length m) by lia.
  now rewrite skipn_app_exact, firstn_app_exact.
Qed.

Lemma slice_to_end (A m : str) :
  slice (A ++ m) (Z.of_nat (List.length A)) (len (A ++ m)) = m.
Proof.
  pose proof (slice_middle A m []) as H. rewrite !app_nil_r in H.
  unfold len. now rewrite length_app, H.
Qed.

Lemma strip_around (p m r : str) :
  match m with c :: _ => is_space c = false | [] => False end ->
  match rev m with c :: _ => is_space c = false | [] => False end ->
  strip (p ++ m ++ r) = lstrip p ++ m ++ rstrip r.
Proof.
  intros Hh Hl. unfold strip.
  assert (Hh' : match m ++ r with c :: _ => is_space c = false | [] => False end).
  { destruct m; [destruct Hh | exact Hh]. }
  rewrite lstrip_before by exact Hh'. rewrite !app_assoc.
  rewrite rstrip_after; [reflexivity|]. rewrite rev_app_distr.
  destruct (rev m); [destruct Hl | exact Hl].
Qed.

Lemma in_lstrip (c : ascii) (s : str) : In c (lstrip s) -> In c s.
Proof.
  destruct (lstrip_split s) as (a & E & _). intros H. rewrite E, in_app_iff. now right.
Qed.

Lemma in_rstrip (c : ascii) (s : str) : In c (rstrip s) -> In c s.
Proof.
  destruct (rstrip_split s) as (b & E & _). intros H. rewrite E, in_app_iff. now left.
Qed.

Lemma strip_rstrip (s : str) : strip (rstrip s) = strip s.
Proof.
  destruct (rstrip_split s) as (b & E & Hb & _).
  destruct (strip_split (rstrip s)) as (a' & b' & E' & Ha' & Hb').
  rewrite E at 2. rewrite E' at 2. rewrite <- !app_assoc.
  symmetry. apply strip_unique; [exact Ha' | | apply strip_trimmed].
  apply Forall_app. now split.
Qed.

Lemma extract_trimmed (r : str) :
  strip (_extract_sql_query r) = _extract_sql_query r.
Proof.
  unfold _extract_sql_query.
  destruct (str_in sql_fence (strip r)); [apply strip_idempotent|].
  destruct (str_in fence (strip r)); apply strip_idempotent.
Qed.

(** X12: the SQL text taken from an answer has no white space at its ends;
    an answer without a triple backquote is taken whole, trimmed. *)
Theorem extract_without_fence (r : str) :
  strip (_extract_sql_query r) = _extract_sql_query r
  /\ (str_in fence (strip r) = false -> _extract_sql_query r = strip r).
Proof.
  split; [apply extract_trimmed|]. intros H. unfold _extract_sql_query.
  destruct (str_in sql_fence (strip r)) eqn:E.
  - apply (str_in_prefix fence (py "sql")) in E. congruence.
  - now rewrite H.
Qed.

Lemma extract_without_fence_witness :
  _extract_sql_query (py "  SELECT name FROM employees  ") = py "SELECT name FROM employees".
Proof.
  apply (proj2 (extract_without_fence (py "  SELECT name FROM employees  "))).
  reflexivity.
Defined.

Lemma find_sql_fence (P rest : str) :
  ~ In backquote P ->
  find (P ++ sql_fence ++ rest) sql_fence 0 = Z.of_nat (List.length P).
Proof. intros H. exact (find_past backquote (py "``sql") [] P rest H). Qed.


Lemma find_fence_past (A a rest : str) :
  ~ In backquote a ->
  find (A ++ a ++ fence ++ rest) fence (Z.of_nat (List.length A))
  = Z.of_nat (List.length A + List.length a).
Proof. intros H. exact (find_past backquote (py "``") A a rest H). Qed.

Lemma find_fence_absent (A a : str) :
  ~ In backquote a ->
  find (A ++ a) fence (Z.of_nat (List.length A)) = (-1)%Z.
Proof. intros H. exact (find_past_absent backquote (py "``") A a H). Qed.


Lemma fenced_edges (F m : str) :
  match F with c :: _ => is_space c = false | [] => False end ->
  match F ++ m ++ fence with c :: _ => is_space c = false | [] => False end
  /\ match rev (F ++ m ++ fence) with c :: _ => is_space c = false | [] => False end.
Proof.
  intros H. split.
  - destruct F; [destruct H | exact H].
  - rewrite !rev_app_distr. reflexivity.
Qed.

(** X13: from an answer with a block opened by [```sql], with no backquote
    before the block or inside it, the text of the block is taken, trimmed:
    up to the closing [```] if there is one, up to the end of the answer
    otherwise. *)
Theorem extract_sql_block (pre body post : str) :
  ~ In backquote pre -> ~ In backquote body ->
  _extract_sql_query (pre ++ sql_fence ++ body ++ fence ++ post) = strip body
  /\ _extract_sql_query (pre ++ sql_fence ++ body) = strip body.
Proof.
  intros Hpre Hbody.
  assert (Hp : ~ In backquote (lstrip pre)) by (intros H; now apply in_lstrip in H).
  split.
  - unfold _extract_sql_query.
    replace (pre ++ sql_fence ++ body ++ fence ++ post)
      with (pre ++ (sql_fence ++ body ++ fence) ++ post)
      by now rewrite <- !app_assoc.
    destruct (fenced_edges sql_fence body eq_refl) as [Hh Hl].
    rewrite (strip_around pre (sql_fence ++ body ++ fence) post Hh Hl).
    set (P := lstrip pre) in *. set (Q := rstrip post).
    replace (P ++ (sql_fence ++ body ++ fence) ++ Q)
      with (P ++ sql_fence ++ (body ++ fence ++ Q))
      by now rewrite <- !app_assoc.
    rewrite str_in_middle, (find_sql_fence P _ Hp).
    replace (Z.of_nat (List.length P) + len sql_fence)%Z
      with (Z.of_nat (List.length (P ++ sql_fence)))
      by (rewrite length_app; unfold len; lia).
    replace (P ++ sql_fence ++ body ++ fence ++ Q)
      with ((P ++ sql_fence) ++ body ++ fence ++ Q)
      by now rewrite <- !app_assoc.
    rewrite (find_fence_past (P ++ sql_fence) body Q Hbody).
    destruct (Z.eqb_spec (Z.of_nat (List.length (P ++ sql_fence) + List.length body)) (-1));
      [lia|].
    now rewrite slice_middle.
  - unfold _extract_sql_query.
    assert (Hl : match rev sql_fence with c :: _ => is_space c = false | [] => False end)
      by reflexivity.
    assert (Hh : match sql_fence with c :: _ => is_space c = false | [] => False end)
      by reflexivity.
    rewrite (strip_around pre sql_fence body Hh Hl).
    set (P := lstrip pre) in *. set (B := rstrip body).
    assert (HB : ~ In backquote B) by (intros H; now apply in_rstrip in H).
    rewrite str_in_middle.
    pose proof (find_sql_fence P B Hp) as F1. rewrite F1. clear F1.
    replace (Z.of_nat (List.length P) + len sql_fence)%Z
      with (Z.of_nat (List.length (P ++ sql_fence)))
      by (rewrite length_app; unfold len; lia).
    replace (P ++ sql_fence ++ B) with ((P ++ sql_fence) ++ B)
      by now rewrite <- !app_assoc.
    rewrite (find_fence_absent (P ++ sql_fence) B HB). cbn [Z.eqb].
    rewrite slice_to_end. apply strip_rstrip.
Qed.

Lemma extract_sql_block_witness :
  _extract_sql_query
    ((py "Here is the query:" ++ nl) ++ sql_fence ++ (nl ++ py "SELECT 1" ++ nl)
     ++ fence ++ py " Done.")
  = py "SELECT 1".
Proof.
  assert (H1 : ~ In backquote (py "Here is the query:" ++ nl))
    by (vm_compute; intuition discriminate).
  assert (H2 : ~ In backquote (nl ++ py "SELECT 1" ++ nl))
    by (vm_compute; intuition discriminate).
  exact (proj1 (extract_sql_block (py "Here is the query:" ++ nl)
                  (nl ++ py "SELECT 1" ++ nl) (py " Done.") H1 H2)).
Defined.






(* ================================================================= *)
(** ** The generation client: prompt and [generate_sql] *)


Section PromptProperties.

Variable repr_list : list str -> str.
Variable Score : Type.







Variable Vec : Type.
Variable encode : str -> Vec.
Variable inner : Vec -> Vec -> Score.
Variable score_leb : Score -> Score -> bool.
Variable pad_score : Score.


Variable generate_content : str -> result str.

(** X17: [generate_sql] returns only what [_extract_sql_query] takes from the
    answer of the client, a text without white space at its ends; what
    prompt building or the client raise is raised again unchanged, after an
    error record in the log. *)
Theorem generate_sql_outcomes (natural_query : str)
    (relevant_tables : list (RelevantTable Score)) :
  match llm_generate_sql repr_list Score generate_content natural_query relevant_tables with
  | (log, Ok sql) =>
      strip sql = sql
      /\ exists prompt text,
           _create_prompt repr_list Score natural_query relevant_tables = Ok prompt
           /\ generate_content prompt = Ok text
           /\ sql = _extract_sql_query text
           /\ log = [Log Debug (py "LLM Response: " ++ text)]
  | (log, Raise e) =>
      log = [Log Error (py "Error generating SQL: " ++ exn_str e)]
      /\ (_create_prompt repr_list Score natural_query relevant_tables = Raise e
          \/ exists prompt,
               _create_prompt repr_list Score natural_query relevant_tables = Ok prompt
               /\ generate_content prompt = Raise e)
  end.
Proof.
  unfold llm_generate_sql, try_except, mbind, emit, ret.
  destruct (_create_prompt repr_list Score natural_query relevant_tables) as [p|e].
  - destruct (generate_content p) as [text|e] eqn:E.
    + split; [apply extract_trimmed|]. exists p, text. now repeat split.
    + split; [reflexivity|]. right. now exists p.
  - split; [reflexivity | now left].
Qed.

End PromptProperties.



(* ================================================================= *)
(** ** Further properties of the orchestrator *)

Section AgentMore.

Variables Table Row : Type.
Variable self : Collaborators Table Row.

Lemma validate_and_execute_shape (sql : str) :
  exists calls s,
    validate_and_execute self sql = (CallValidateAndExecute sql :: calls, Ok s)
    /\ (calls = [] \/ calls = [CallDatabase sql])
    /\ (starts_destructive sql = true -> calls = []).
Proof.
  unfold validate_and_execute, starts_destructive, mbind, emit, try_except, call, ret.
  destruct (startswith (strip (lower sql)) (py "delete")
            || startswith (strip (lower sql)) (py "drop"))%bool.
  - eexists [], _. split; [reflexivity|]. split; [now left | reflexivity].
  - destruct (run_sql self sql) as [[rows columns]|e];
      [destruct (negb (nonempty rows))|];
      eexists [CallDatabase sql], _; (split; [reflexivity|]);
      (split; [now right | discriminate]).
Qed.

(** X18: [validate_and_execute] never raises; it reaches the database at
    most once, with the text it was given, and not at all when that text,
    lower-cased and trimmed, starts with [delete] or [drop]: then it answers
    that only SELECT statements are allowed. *)
Theorem validate_and_execute_is_contained (sql : str) :
  exists calls s,
    validate_and_execute self sql = (CallValidateAndExecute sql :: calls, Ok s)
    /\ (calls = [] \/ calls = [CallDatabase sql])
    /\ (starts_destructive sql = true ->
        calls = [] /\ s = py "Only SELECT statements are allowed: " ++ sql)
    /\ (forall e, starts_destructive sql = false -> run_sql self sql = Raise e ->
        s = py "Error executing SQL query: " ++ exn_str e).
Proof.
  unfold validate_and_execute, starts_destructive, mbind, emit, try_except, call, ret.
  destruct (startswith (strip (lower sql)) (py "delete")
            || startswith (strip (lower sql)) (py "drop"))%bool.
  - eexists [], _. split; [reflexivity|]. split; [now left|].
    split; [now split | discriminate].
  - destruct (run_sql self sql) as [[rows columns]|e].
    + destruct (negb (nonempty rows)); eexists [CallDatabase sql], _;
        (split; [reflexivity|]); (split; [now right|]);
        (split; [discriminate|]); intros e _ H; discriminate.
    + eexists [CallDatabase sql], _. split; [reflexivity|]. split; [now right|].
      split; [discriminate|]. intros e' _ H. now injection H as <-.
Qed.

(** X19: in a run of [process_query], the database only ever receives a text
    that is the sanitised form of the generated SQL, that the validation
    approved, that holds no terminator before its last character, and that
    does not start with [delete] or [drop]. *)
Theorem database_receives_only_approved_sql (natural_query sql : str) :
  In (CallDatabase sql) (fst (process_query self natural_query)) ->
  validate_sql_query sql = true
  /\ str_in semicolon (but_last sql) = false
  /\ starts_destructive sql = false
  /\ exists tables generated,
       retrieve self natural_query = Ok tables
       /\ generate_sql self natural_query tables = Ok generated
       /\ sql = sanitize_sql_query generated.
Proof.
  unfold process_query, mbind, emit, try_except, call, ret.
  destruct (retrieve self natural_query) as [tables|e];
    [|simpl; intuition discriminate].
  destruct (negb (nonempty tables)); [simpl; intuition discriminate|].
  destruct (generate_sql self natural_query tables) as [q|e] eqn:Eg;
    [|simpl; intuition discriminate].
  unfold validate_and_sanitize_query.
  destruct (validate_sql_query (sanitize_sql_query q)) eqn:Hv;
    [|simpl; intuition discriminate].
  cbn [negb].
  destruct (validate_and_execute_shape (sanitize_sql_query q))
    as (calls & s & -> & Hcalls & Hd).
  intros H.
  assert (Hin : In (CallDatabase sql) calls).
  { simpl in H. rewrite app_nil_r in H.
    destruct H as [H|[H|[H|[H|[H|[H|[H|[H|H]]]]]]]]; try discriminate. exact H. }
  destruct Hcalls as [->| ->]; [destruct Hin|].
  destruct Hin as [Hin|[]]. injection Hin as <-.
  split; [exact Hv|]. split.
  { rewrite sanitize_unfold.
    destruct (str_in semicolon (but_last (without_trailing_terminator q))) eqn:Ei;
      [apply cut_has_no_inner_terminator | exact Ei]. }
  split.
  - destruct (starts_destructive (sanitize_sql_query q)); [|reflexivity].
    pose proof (Hd eq_refl) as Hnil. discriminate.
  - now exists tables, q.
Qed.

(** X20: when retrieval returns no table, [process_query] returns the
    message that no relevant tables were found, and the run neither calls
    the generation client nor enters [validate_and_execute]. *)
Theorem no_tables_stops_the_run (natural_query : str) :
  retrieve self natural_query = Ok [] ->
  exists trace,
    process_query self natural_query
    = (trace, Ok (py "No relevant tables found for the given query."))
    /\ existsb is_execution trace = false
    /\ ~ In (CallGenerate natural_query) trace.
Proof.
  intros Hr. unfold process_query, mbind, emit, try_except, call, ret.
  rewrite Hr. eexists. split; [reflexivity|]. split; [reflexivity|].
  simpl. intuition discriminate.
Qed.

(** X21: when every stage succeeds, [process_query] calls retrieval,
    generation, [validate_and_execute] and the database once each, in this
    order, and returns the sanitised SQL followed by the result: the message
    ["No results found."] for an empty result set, else the columns, a rule
    of fifty hyphens and one line per row. *)
Theorem successful_run (natural_query : str) (tables : list Table)
    (generated sanitized : str) (rows : list Row) (columns : list str) :
  retrieve self natural_query = Ok tables ->
  nonempty tables = true ->
  generate_sql self natural_query tables = Ok generated ->
  validate_and_sanitize_query generated = (true, sanitized) ->
  starts_destructive sanitized = false ->
  run_sql self sanitized = Ok (rows, columns) ->
  exists trace,
    process_query self natural_query
    = (trace,
       Ok (py "Generated SQL: " ++ sanitized ++ nl ++ nl ++ py "Result:" ++ nl
           ++ (if nonempty rows
               then py "Columns: " ++ join (py ", ") columns ++ nl
                    ++ repeat "-"%char 50 ++ nl ++ rows_text Table Row self rows
               else py "No results found.")))
    /\ calls_of trace
       = [CallRetrieve natural_query; CallGenerate natural_query;
          CallValidateAndExecute sanitized; CallDatabase sanitized].
Proof.
  intros Hr Hn Hg Hv Hs Hx.
  unfold process_query, validate_and_execute, mbind, emit, try_except, call, ret.
  unfold starts_destructive in Hs.
  rewrite Hr, Hn. cbn [negb]. rewrite Hg, Hv. cbn [negb]. rewrite Hs, Hx.
  destruct rows as [|row rows]; cbn [nonempty negb].
  - eexists. split; reflexivity.
  - eexists. split.
    + apply (f_equal2 pair); [reflexivity|]. f_equal. f_equal.
      rewrite <- !app_assoc. reflexivity.
    + reflexivity.
Qed.

End AgentMore.

(* ================================================================= *)
(** ** The interactive [add-table] command *)

Lemma split_without_separator (c : ascii) (s : str) :
  ~ In c s -> split c s = [s].
Proof.
  induction s as [|x s IH]; intros H; [reflexivity|]. simpl.
  destruct (Ascii.eqb_spec x c) as [->|Hne]; [exfalso; apply H; now left|].
  rewrite IH by (intros Hin; apply H; now right). reflexivity.
Qed.

Lemma split_at_separator (c : ascii) (a b : str) :
  ~ In c a -> split c (a ++ c :: b) = a :: split c b.
Proof.
  induction a as [|x a IH]; intros H; simpl.
  - now rewrite Ascii.eqb_refl.
  - destruct (Ascii.eqb_spec x c) as [->|Hne]; [exfalso; apply H; now left|].
    rewrite IH by (intros Hin; apply H; now right). reflexivity.
Qed.

(** The pieces of a split hold only characters of the text. *)
Lemma split_pieces (c : ascii) (s piece : str) (x : ascii) :
  In piece (split c s) -> In x piece -> In x s.
Proof.
  revert piece. induction s as [|y s IH]; intros piece Hp Hx; simpl in Hp.
  - destruct Hp as [<-|[]]. destruct Hx.
  - destruct (Ascii.eqb y c).
    + destruct Hp as [<-|Hp]; [destruct Hx|]. right. now apply (IH piece).
    + destruct (split c s) as [|h r] eqn:E.
      * destruct Hp as [<-|[]]. destruct Hx as [<-|[]]. now left.
      * destruct Hp as [<-|Hp].
        -- destruct Hx as [<-|Hx]; [now left|]. right. apply (IH h); [now left | exact Hx].
        -- right. apply (IH piece); [now right | exact Hx].
Qed.

Lemma parse_columns_loop_skips (segments : list str) (columns : list ColumnInfo) :
  Forall (fun seg => parse_column columns seg = Unpacked columns) segments ->
  parse_columns_loop columns segments = Unpacked columns.
Proof.
  induction 1 as [|seg rest Hs _ IH]; simpl; [reflexivity|]. now rewrite Hs.
Qed.

(** X22: a line without a comma yields no column at all, and no error:
    every piece between semicolons has fewer than three comma-separated
    parts and is passed over. *)
Theorem columns_without_comma_are_dropped (columns_input : str) :
  ~ In ","%char columns_input -> parse_columns columns_input = Unpacked [].
Proof.
  intros H. unfold parse_columns. apply parse_columns_loop_skips.
  apply Forall_forall. intros seg Hseg. unfold parse_column.
  destruct (nonempty (strip seg)); [|reflexivity].
  rewrite split_without_separator; [reflexivity|].
  intros Hin. apply H. now apply (split_pieces ";"%char columns_input seg).
Qed.

Lemma columns_without_comma_are_dropped_witness :
  parse_columns (py "id:INTEGER:false;name:TEXT:true") = Unpacked [].
Proof.
  apply (columns_without_comma_are_dropped (py "id:INTEGER:false;name:TEXT:true")).
  vm_compute. intuition discriminate.
Defined.

(** X23: a first piece with at least three comma-separated parts whose first
    part does not consist of exactly three colon-separated fields makes the
    parsing raise [ValueError], whatever follows; [name:type,...], the format
    the prompt announces, is such a piece. *)
Theorem malformed_column_raises (seg rest : str) :
  ~ In ";"%char seg ->
  nonempty (strip seg) = true ->
  3 <= List.length (split "," seg) ->
  List.length (split ":" (nth 0 (split "," seg) [])) <> 3 ->
  parse_columns seg = ValueError
  /\ parse_columns (seg ++ ";"%char :: rest) = ValueError.
Proof.
  intros Hs Hn H3 Hc.
  assert (E : forall columns, parse_column columns seg = ValueError).
  { intros columns. unfold parse_column. rewrite Hn.
    destruct (Nat.leb_spec 3 (List.length (split "," seg))); [|lia].
    destruct (split ":" (nth 0 (split "," seg) [])) as [|a [|b [|c [|d l]]]];
      simpl in *; try reflexivity. congruence. }
  unfold parse_columns. split.
  - rewrite split_without_separator by exact Hs. simpl. now rewrite E.
  - rewrite split_at_separator by exact Hs. simpl. now rewrite E.
Qed.

Lemma malformed_column_raises_witness :
  parse_columns (py "id:INTEGER,False,True") = ValueError
  /\ parse_columns (py "id:INTEGER,False,True" ++ ";"%char :: py "name:TEXT:true,x,y")
     = ValueError.
Proof.
  apply (malformed_column_raises (py "id:INTEGER,False,True") (py "name:TEXT:true,x,y")).
  - vm_compute. intuition discriminate.
  - reflexivity.
  - vm_compute. lia.
  - vm_compute. discriminate.
Defined.



Lemma str_eqb_eq (a b : str) : str_eqb a b = true <-> a = b.
Proof.
  unfold str_eqb. destruct (list_eq_dec ascii_dec a b); split; congruence.
Qed.

Lemma parse_column_complete (columns columns' : list ColumnInfo) (seg : str) :
  forallb complete_column columns = true ->
  parse_column columns seg = Unpacked columns' ->
  forallb complete_column columns' = true.
Proof.
  intros Hc. unfold parse_column.
  destruct (nonempty (strip seg)); [|intros H; now injection H as <-].
  destruct (3 <=? List.length (split "," seg))%nat; [|intros H; now injection H as <-].
  destruct (unpack3 (split ":" (nth 0 (split "," seg) []))) as [[[a b] c]|];
    [|discriminate].
  destruct (3 <=? List.length (split "," seg))%nat;
    destruct (str_in [":"%char] (nth 2 (split "," seg) [])); cbn [andb];
    try (destruct (unpack2 (split ":" (nth 2 (split "," seg) []))) as [[pn pv]|];
         [|discriminate]);
    intros H; injection H as <-; rewrite forallb_app, Hc; reflexivity.
Qed.

Lemma parse_columns_complete (columns_input : str) (columns : list ColumnInfo) :
  parse_columns columns_input = Unpacked columns ->
  forallb complete_column columns = true.
Proof.
  unfold parse_columns.
  assert (H : forall segments acc cols,
             forallb complete_column acc = true ->
             parse_columns_loop acc segments = Unpacked cols ->
             forallb complete_column cols = true).
  { induction segments as [|seg rest IH]; intros acc cols Ha E; simpl in E.
    - now injection E as <-.
    - destruct (parse_column acc seg) as [acc'|] eqn:Ep; [|discriminate].
      apply (IH acc' cols); [|exact E]. now apply (parse_column_complete acc acc' seg). }
  apply H. reflexivity.
Qed.

Section InteractiveProperties.

Variable repr_list : list str -> str.
Variable Vec : Type.
Variable encode : str -> Vec.

(** X25: a call of the interactive [add-table] command either returns at a
    [done], or raises [ValueError] while it reads the columns, or appends
    exactly one custom descriptor, named by the trimmed first line, and
    rebuilds the index: the descriptor it hands over always builds, even
    with an empty name. *)
Theorem interactive_add_always_builds (agent : RAGSystem Vec)
    (first_line second_line : str) :
  match add_table_descriptions_interactive repr_list Vec encode agent
          first_line second_line with
  | Done =>
      lower (strip first_line) = py "done" \/ lower (strip second_line) = py "done"
  | Unpacking => parse_columns (strip second_line) = ValueError
  | Added after outcome =>
      outcome = Ok tt
      /\ exists columns d,
           parse_columns (strip second_line) = Unpacked columns
           /\ table_descriptions after = table_descriptions agent ++ [d]
           /\ td_name d = strip first_line
           /\ td_columns d = columns
           /\ td_is_custom d = true
           /\ coupled Vec encode after
  end.
Proof.
  unfold add_table_descriptions_interactive.
  destruct (str_eqb (lower (strip first_line)) (py "done")) eqn:E1.
  { left. now apply str_eqb_eq. }
  destruct (str_eqb (lower (strip second_line)) (py "done")) eqn:E2.
  { right. now apply str_eqb_eq. }
  destruct (parse_columns (strip second_line)) as [columns|] eqn:Ep; [|reflexivity].
  pose proof (parse_columns_complete _ _ Ep) as Hc.
  set (c := {| ct_name := Some (strip first_line); ct_columns := Some columns;
               ct_primary_keys := None; ct_foreign_keys := None |}).
  assert (Hw : well_formed_custom c = true).
  { unfold well_formed_custom. simpl. now rewrite Hc. }
  destruct (proj2 (proj1 (custom_description_spec repr_list c)) Hw) as (d & Ed).
  destruct (proj2 (custom_description_spec repr_list c) d Ed)
    as (Hn & Hcols & _ & _ & Hcust & _).
  unfold add_custom_table_descriptions. simpl append_customs. rewrite Ed.
  assert (Hne : table_descriptions
                  {| table_descriptions := table_descriptions agent ++ [d];
                     index := index agent |} <> []).
  { simpl. now destruct (table_descriptions agent). }
  pose proof (build_index_ok Vec encode _ Hne) as Eb. rewrite Eb.
  split; [reflexivity|]. exists columns, d. split; [reflexivity|].
  split; [reflexivity|]. split; [simpl in Hn; congruence|].
  split; [exact Hcols|]. split; [exact Hcust|].
  exact (build_index_coupled Vec encode _ _ Eb).
Qed.

End InteractiveProperties.

(* ================================================================= *)
(** ** The further properties on the small instance *)

Lemma validate_and_execute_is_contained_witness :
  exists calls s,
    validate_and_execute (Example.agent Example.rag_system (py "x"))
      (py " Dropped_items ")
    = (CallValidateAndExecute (py " Dropped_items ") :: calls, Ok s)
    /\ calls = []
    /\ s = py "Only SELECT statements are allowed: " ++ py " Dropped_items ".
Proof.
  destruct (validate_and_execute_is_contained _ _
              (Example.agent Example.rag_system (py "x")) (py " Dropped_items "))
    as (calls & s & E & _ & H & _).
  exists calls, s. split; [exact E|]. exact (H eq_refl).
Defined.

Lemma database_receives_only_approved_sql_witness :
  validate_sql_query (py "SELECT 1") = true
  /\ str_in semicolon (but_last (py "SELECT 1")) = false
  /\ starts_destructive (py "SELECT 1") = false.
Proof.
  destruct (database_receives_only_approved_sql _ _
              (Example.agent Example.rag_system (py "SELECT 1; DROP TABLE employees"))
              (py "Show all employees") (py "SELECT 1")) as (H1 & H2 & H3 & _).
  - vm_compute. tauto.
  - now repeat split.
Defined.

Lemma no_tables_stops_the_run_witness :
  exists trace,
    process_query agent_without_tables (py "Show all invoices")
    = (trace, Ok (py "No relevant tables found for the given query."))
    /\ existsb is_execution trace = false
    /\ ~ In (CallGenerate (py "Show all invoices")) trace.
Proof.
  apply (no_tables_stops_the_run _ _ agent_without_tables (py "Show all invoices")).
  reflexivity.
Defined.

Lemma successful_run_witness :
  exists trace,
    process_query (Example.agent Example.rag_system (py "SELECT 1;"))
      (py "Show all employees")
    = (trace,
       Ok (py "Generated SQL: " ++ py "SELECT 1" ++ nl ++ nl ++ py "Result:" ++ nl
           ++ py "Columns: " ++ py "1" ++ nl ++ repeat "-"%char 50 ++ nl
           ++ py "(1,)" ++ nl))
    /\ calls_of trace
       = [CallRetrieve (py "Show all employees"); CallGenerate (py "Show all employees");
          CallValidateAndExecute (py "SELECT 1"); CallDatabase (py "SELECT 1")].
Proof.
  apply (successful_run _ _ (Example.agent Example.rag_system (py "SELECT 1;"))
           (py "Show all employees") retrieved_employees (py "SELECT 1;") (py "SELECT 1")
           [py "(1,)"] [py "1"]); reflexivity.
Defined.

Lemma failed_append_keeps_partial_list_witness :
  add_custom_table_descriptions Example.repr_list Z Example.encode Example.rag_system
    ([Example.departments] ++ Example.nameless :: [])
  = ({| table_descriptions :=
          table_descriptions Example.rag_system
          ++ [match custom_description Example.repr_list Example.departments with
              | Ok d => d
              | Raise _ => Example.employees_description
              end];
        index := index Example.rag_system |},
     Raise (KeyError (py "name"))).
Proof.
  apply (proj1 (failed_append_keeps_partial_list Example.repr_list Z Example.encode
                  Example.rag_system [Example.departments] [] _ Example.nameless
                  (KeyError (py "name")) eq_refl eq_refl)).
Defined.

Lemma constructor_builds_live_then_custom_witness :
  exists self live built,
    RAGSystem_init Example.repr_list Z Example.encode [Example.employees]
      (Some [Example.departments]) = Ok self
    /\ table_descriptions self = live ++ built
    /\ List.length live = 1 /\ List.length built = 1.
Proof.
  eexists.
  assert (E : RAGSystem_init Example.repr_list Z Example.encode [Example.employees]
                (Some [Example.departments]) = Ok _) by (vm_compute; reflexivity).
  destruct (constructor_builds_live_then_custom Example.repr_list Z Example.encode
              _ _ _ E) as (live & built & H1 & _ & _ & H2 & H3 & _).
  exists live, built. now repeat split.
Defined.

Lemma descriptors_stay_complete_witness :
  forallb complete (table_descriptions Example.rag_system) = true
  /\ forallb complete
       (table_descriptions
          (fst (add_custom_table_descriptions Example.repr_list Z Example.encode
                  Example.rag_system [Example.departments; Example.nameless]))) = true.
Proof.
  destruct (descriptors_stay_complete Example.repr_list Z Example.encode) as [H1 H2].
  assert (H : forallb complete (table_descriptions Example.rag_system) = true).
  { apply (H1 [Example.employees] None). reflexivity. }
  split; [exact H | now apply H2].
Defined.
